(** * Kraus-operator channels of [pennylane/ops/channel.py]

    A shallow embedding of the five channel classes of the module and of
    the NumPy operations they call, followed by the properties of the
    Kraus matrices they return.

    Numbers.  The source computes with NumPy [float64] and [complex128]
    values.  They are modelled by the real numbers of the Standard
    Library and by pairs of reals: rounding, infinities and NaN are not
    modelled, so [np.sqrt] is the real square root and is only meaningful
    on non-negative arguments (the documented parameter domains).

    Exceptions.  A call either returns a value or raises a Python
    exception; [result] records which, and the exception carries the
    message of the source.

    Methods.  Each [_kraus_matrices] is a class method [(cls, *params)]
    that never reads [cls]; it is modelled as a function of the tuple
    [params]. *)

From Stdlib Require Import String Reals Lra Lia Arith Bool List.
Import ListNotations.

Local Open Scope R_scope.

(** ** Complex numbers *)

Record C : Type := mkC { Re : R; Im : R }.

Definition RtoC (x : R) : C := mkC x 0.
Definition C0 : C := RtoC 0.
Definition C1 : C := RtoC 1.
(** The imaginary unit, [1j]. *)
Definition Ci : C := mkC 0 1.

Definition Cplus (a b : C) : C := mkC (Re a + Re b) (Im a + Im b).
Definition Copp (a : C) : C := mkC (- Re a) (- Im a).
Definition Cminus (a b : C) : C := Cplus a (Copp b).
Definition Cmult (a b : C) : C :=
  mkC (Re a * Re b - Im a * Im b) (Re a * Im b + Im a * Re b).
Definition Cconj (a : C) : C := mkC (Re a) (- Im a).
(** [abs] of a complex number. *)
Definition Cmod (a : C) : R := sqrt (Re a * Re a + Im a * Im a).

Definition Csum (l : list C) : C := fold_right Cplus C0 l.

(** Comparison of reals as a boolean, as [<=] is in Python. *)
Definition Rleb (x y : R) : bool := if Rle_dec x y then true else false.

(** ** Python results *)

Inductive exception : Type :=
| ValueError (msg : string)
| IndexError (msg : string).

Inductive result (A : Type) : Type :=
| Return (a : A)
| Raise (e : exception).

Arguments Return {A} a.
Arguments Raise {A} e.

Definition bind {A B : Type} (r : result A) (k : A -> result B) : result B :=
  match r with
  | Return a => k a
  | Raise e => Raise e
  end.

Notation "x <- r ;; k" := (bind r (fun x => k))
  (at level 61, r at next level, right associativity).

(** [t[i]] on a tuple. *)
Definition tuple_getitem {A : Type} (t : list A) (i : nat) : result A :=
  match nth_error t i with
  | Some x => Return x
  | None => Raise (IndexError "tuple index out of range")
  end.

(** [l[i]] on a list. *)
Definition list_getitem {A : Type} (l : list A) (i : nat) : result A :=
  match nth_error l i with
  | Some x => Return x
  | None => Raise (IndexError "list index out of range")
  end.

(** [all(f(x) for x in l)]: the generator is consumed from the left and
    stops at the first false element; an exception raised by [f] on the
    way is raised by [all]. *)
Fixpoint all {A : Type} (f : A -> result bool) (l : list A) : result bool :=
  match l with
  | [] => Return true
  | x :: xs => b <- f x ;; if b then all f xs else Return false
  end.

(** ** NumPy arrays *)

(** An array is its shape and its elements in row-major order. *)
Record ndarray : Type := mk_ndarray { shape : list nat; data : list C }.

Definition ndim (K : ndarray) : nat := length (shape K).

Definition size (s : list nat) : nat := fold_right Nat.mul 1%nat s.

(** [s == t] on two shapes, which are tuples of numbers. *)
Definition shape_eqb (s t : list nat) : bool :=
  if list_eq_dec Nat.eq_dec s t then true else false.

(** Every array NumPy builds has as many elements as its shape says. *)
Definition well_formed (K : ndarray) : Prop :=
  length (data K) = size (shape K).

(** The elements [f i j] of an [r] x [c] matrix, row after row. *)
Definition tabulate2 (r c : nat) (f : nat -> nat -> C) : list C :=
  flat_map (fun i => map (f i) (seq 0 c)) (seq 0 r).

(** Element [(j, k)] of row-major data with rows of length [n]. *)
Definition get2 (n : nat) (d : list C) (j k : nat) : C :=
  nth (j * n + k) d C0.

(** Element [(a, j, k)] of row-major data of an array of shape
    [(_, m, n)]. *)
Definition get3 (m n : nat) (d : list C) (a j k : nat) : C :=
  nth ((a * m + j) * n + k) d C0.

Module np.

(** [np.sqrt(x)] for a real [x >= 0].  On a negative [x] NumPy returns
    [nan], which the reals have not: the value of the model there (0) is
    not the value of the source, and the theorems that depend on the
    values of the matrices are stated on [[0, 1]]. *)
Definition sqrt (x : R) : R := R_sqrt.sqrt x.

(** [np.array(rows)] for a nested list of numbers whose rows have the
    length of the first. *)
Definition array2 (rows : list (list C)) : ndarray :=
  mk_ndarray [length rows; length (hd [] rows)] (concat rows).

(** [np.diag(v)] for a 1-D [v]. *)
Definition diag (v : list C) : ndarray :=
  mk_ndarray [length v; length v]
    (tabulate2 (length v) (length v)
       (fun i j => if Nat.eqb i j then nth i v C0 else C0)).

(** [np.eye(n)]. *)
Definition eye (n : nat) : ndarray :=
  mk_ndarray [n; n] (tabulate2 n n (fun i j => if Nat.eqb i j then C1 else C0)).

(** [s * K] for a real scalar [s], which is [np.multiply(s, K)]. *)
Definition multiply (s : R) (K : ndarray) : ndarray :=
  mk_ndarray (shape K) (map (Cmult (RtoC s)) (data K)).

(** [K.conj()]. *)
Definition conj (K : ndarray) : ndarray :=
  mk_ndarray (shape K) (map Cconj (data K)).

(** [np.array(K_list)] for a list of arrays of one shape: the arrays are
    stacked along a new first axis.  On the empty list the result is the
    empty 1-D array, of shape [(0,)]. *)
Definition array (K_list : list ndarray) : ndarray :=
  mk_ndarray
    (length K_list :: match K_list with [] => [] | K :: _ => shape K end)
    (concat (map data K_list)).

(** [np.einsum("ajk,ajl->kl", A, B)].  Each operand must have the three
    axes its subscripts name, and the axes [a] and [j] of both must
    agree; element [(k, l)] of the result is the sum over [a] and [j] of
    [A[a,j,k] * B[a,j,l]].  The messages are those of NumPy, the last two
    shortened. *)
Definition einsum_too_many_subscripts (operand : string) : string :=
  "einstein sum subscripts string contains too many subscripts for operand "
  ++ operand.
Definition einsum_too_many_dimensions : string :=
  "operand has more dimensions than subscripts given in einstein sum".
Definition einsum_cannot_broadcast : string :=
  "operands could not be broadcast together".

Definition einsum_axes (operand : string) (A : ndarray)
  : result (nat * nat * nat) :=
  match shape A with
  | [a; j; k] => Return (a, j, k)
  | s =>
      Raise (ValueError
        (if Nat.ltb (length s) 3 then einsum_too_many_subscripts operand
         else einsum_too_many_dimensions))
  end.

Definition einsum_ajk_ajl_kl (A B : ndarray) : result ndarray :=
  axes_A <- einsum_axes "0" A ;;
  axes_B <- einsum_axes "1" B ;;
  let '(a, j, k) := axes_A in
  let '(a', j', l) := axes_B in
  if Nat.eqb a a' && Nat.eqb j j' then
    Return (mk_ndarray [k; l]
      (tabulate2 k l (fun k' l' =>
         Csum (map (fun a' =>
           Csum (map (fun j' =>
             Cmult (get3 j k (data A) a' j' k') (get3 j l (data B) a' j' l'))
             (seq 0 j)))
           (seq 0 a)))))
  else Raise (ValueError einsum_cannot_broadcast).

(** [np.allclose(A, B)] with the default tolerances, for two arrays of
    one shape: every element of [A] is within [atol + rtol * abs(b)] of
    the element [b] of [B] at its place. *)
Definition rtol : R := 1 / 100000.
Definition atol : R := 1 / 100000000.

Definition isclose (a b : C) : bool :=
  Rleb (Cmod (Cminus a b)) (atol + rtol * Cmod b).

Definition allclose (A B : ndarray) : bool :=
  forallb (fun ab => isclose (fst ab) (snd ab)) (combine (data A) (data B)).

End np.

(** ** The channel classes *)

(** [num_wires] is a number of wires or the sentinel [AnyWires] of
    [pennylane.operation]. *)
Inductive wires_count : Type :=
| Wires (n : nat)
| AnyWires.

(** [gamma, p = params]. *)
Definition unpack2 {A : Type} (params : list A) : result (A * A) :=
  match params with
  | [] => Raise (ValueError "not enough values to unpack (expected 2, got 0)")
  | [_] => Raise (ValueError "not enough values to unpack (expected 2, got 1)")
  | [x; y] => Return (x, y)
  | _ => Raise (ValueError "too many values to unpack (expected 2)")
  end.

Module AmplitudeDamping.

Definition num_params : nat := 1.
Definition num_wires : wires_count := Wires 1.
Definition par_domain : string := "R".
Definition grad_method : option string := Some "F"%string.

Definition _kraus_matrices (params : list R) : result (list ndarray) :=
  gamma <- tuple_getitem params 0 ;;
  let K0 := np.diag [RtoC 1; RtoC (np.sqrt (1 - gamma))] in
  let K1 := np.multiply (np.sqrt gamma) (np.array2 [[C0; C1]; [C0; C0]]) in
  Return [K0; K1].

End AmplitudeDamping.

Module GeneralizedAmplitudeDamping.

Definition num_params : nat := 2.
Definition num_wires : wires_count := Wires 1.
Definition par_domain : string := "R".
Definition grad_method : option string := Some "F"%string.

Definition _kraus_matrices (params : list R) : result (list ndarray) :=
  gp <- unpack2 params ;;
  let gamma := fst gp in
  let p := snd gp in
  let K0 := np.multiply (np.sqrt p) (np.diag [RtoC 1; RtoC (np.sqrt (1 - gamma))]) in
  let K1 := np.multiply (np.sqrt p * np.sqrt gamma) (np.array2 [[C0; C1]; [C0; C0]]) in
  let K2 := np.multiply (np.sqrt (1 - p)) (np.diag [RtoC (np.sqrt (1 - gamma)); RtoC 1]) in
  let K3 := np.multiply (np.sqrt (1 - p) * np.sqrt gamma) (np.array2 [[C0; C0]; [C1; C0]]) in
  Return [K0; K1; K2; K3].

End GeneralizedAmplitudeDamping.

Module PhaseDamping.

Definition num_params : nat := 1.
Definition num_wires : wires_count := Wires 1.
Definition par_domain : string := "R".
Definition grad_method : option string := Some "F"%string.

Definition _kraus_matrices (params : list R) : result (list ndarray) :=
  gamma <- tuple_getitem params 0 ;;
  let K0 := np.diag [RtoC 1; RtoC (np.sqrt (1 - gamma))] in
  let K1 := np.diag [RtoC 0; RtoC (np.sqrt gamma)] in
  Return [K0; K1].

End PhaseDamping.

Module DepolarizingChannel.

Definition num_params : nat := 1.
Definition num_wires : wires_count := Wires 1.
Definition par_domain : string := "R".
Definition grad_method : option string := Some "F"%string.

Definition _kraus_matrices (params : list R) : result (list ndarray) :=
  p <- tuple_getitem params 0 ;;
  let K0 := np.multiply (np.sqrt (1 - p)) (np.eye 2) in
  let K1 := np.multiply (np.sqrt (p / 3)) (np.array2 [[C0; C1]; [C1; C0]]) in
  let K2 := np.multiply (np.sqrt (p / 3)) (np.array2 [[C0; Copp Ci]; [Ci; C0]]) in
  let K3 := np.multiply (np.sqrt (p / 3)) (np.array2 [[C1; C0]; [C0; RtoC (-1)]]) in
  Return [K0; K1; K2; K3].

End DepolarizingChannel.

Module QubitChannel.

Definition num_params : nat := 1.
Definition num_wires : wires_count := AnyWires.
Definition par_domain : string := "L".
Definition grad_method : option string := None.

(** The messages of the four [ValueError]s the method raises itself. *)
Definition not_square : string :=
  "Only channels with similar input and output Hilbert space dimensions can be applied.".
Definition not_same_shape : string :=
  "All Kraus matrices must have the same shape.".
Definition not_2d : string :=
  "Dimension of all Kraus matrices must be (2**num_wires, 2**num_wires).".
Definition not_trace_preserving : string :=
  "Only trace preserving channels can be applied.".

Definition validation_errors : list exception :=
  [ValueError not_square; ValueError not_same_shape;
   ValueError not_2d; ValueError not_trace_preserving].

(** [K.shape[0] == K.shape[1]] *)
Definition is_square (K : ndarray) : result bool :=
  r <- tuple_getitem (shape K) 0 ;;
  c <- tuple_getitem (shape K) 1 ;;
  Return (Nat.eqb r c).

(** [K.shape == K_list[0].shape] *)
Definition has_shape_of_first (K_list : list ndarray) (K : ndarray)
  : result bool :=
  K0 <- list_getitem K_list 0 ;;
  Return (shape_eqb (shape K) (shape K0)).

(** [K.ndim == 2] *)
Definition is_2d (K : ndarray) : result bool :=
  Return (Nat.eqb (ndim K) 2).

Definition _kraus_matrices (params : list (list ndarray))
  : result (list ndarray) :=
  K_list <- tuple_getitem params 0 ;;
  square <- all is_square K_list ;;
  if negb square then Raise (ValueError not_square) else
  same <- all (has_shape_of_first K_list) K_list ;;
  if negb same then Raise (ValueError not_same_shape) else
  two_d <- all is_2d K_list ;;
  if negb two_d then Raise (ValueError not_2d) else
  let K_arr := np.array K_list in
  Kraus_sum <- np.einsum_ajk_ajl_kl (np.conj K_arr) K_arr ;;
  K0 <- list_getitem K_list 0 ;;
  n <- tuple_getitem (shape K0) 0 ;;
  if negb (np.allclose Kraus_sum (np.eye n))
  then Raise (ValueError not_trace_preserving)
  else Return K_list.

End QubitChannel.

(** ** The completeness relation *)

(** Matrix operations on 2-D arrays, in the words of the relation
    [sum_i (K_i)^dagger K_i = I]. *)
Definition rows (K : ndarray) : nat := nth 0 (shape K) 0%nat.
Definition cols (K : ndarray) : nat := nth 1 (shape K) 0%nat.

(** Element [(i, j)] of a 2-D array. *)
Definition entry (K : ndarray) (i j : nat) : C := get2 (cols K) (data K) i j.

Definition conjugate_transpose (K : ndarray) : ndarray :=
  mk_ndarray [cols K; rows K]
    (tabulate2 (cols K) (rows K) (fun i j => Cconj (entry K j i))).

Definition matmul (A B : ndarray) : ndarray :=
  mk_ndarray [rows A; cols B]
    (tabulate2 (rows A) (cols B) (fun i j =>
       Csum (map (fun t => Cmult (entry A i t) (entry B t j)) (seq 0 (cols A))))).

Definition matadd (A B : ndarray) : ndarray :=
  mk_ndarray [rows A; cols A]
    (tabulate2 (rows A) (cols A) (fun i j => Cplus (entry A i j) (entry B i j))).

Definition zeros (n : nat) : ndarray :=
  mk_ndarray [n; n] (tabulate2 n n (fun _ _ => C0)).

(** The sum over the list of [K^dagger K], for [n] x [n] matrices. *)
Definition completeness_sum (n : nat) (K_list : list ndarray) : ndarray :=
  fold_right (fun K acc => matadd (matmul (conjugate_transpose K) K) acc)
    (zeros n) K_list.

(** Element [(k, l)] of [K^dagger K] for an [n] x [n] matrix [K]. *)
Definition gram_entry (n : nat) (K : ndarray) (k l : nat) : C :=
  Csum (map (fun j => Cmult (Cconj (entry K j k)) (entry K j l)) (seq 0 n)).

(** [A] is equal to [B] within the tolerance of [np.allclose], element
    by element, for [n] x [n] matrices. *)
Definition within_tolerance (n : nat) (A B : ndarray) : Prop :=
  forall k l : nat, (k < n)%nat -> (l < n)%nat ->
    Cmod (Cminus (entry A k l) (entry B k l)) <= np.atol + np.rtol * Cmod (entry B k l).

(** The matrices a call returned satisfy the completeness relation:
    the sum of their [K^dagger K] is the [n] x [n] identity. *)
Definition complete (n : nat) (r : result (list ndarray)) : Prop :=
  exists K_list : list ndarray,
    r = Return K_list /\ completeness_sum n K_list = np.eye n.

(** A 2-D array of shape [(n, n)]. *)
Definition square_matrix (n : nat) (K : ndarray) : Prop :=
  shape K = [n; n] /\ well_formed K.

(** The call returned [count] arrays, each an [n] x [n] matrix. *)
Definition returns_matrices (count n : nat) (r : result (list ndarray))
  : Prop :=
  exists K_list : list ndarray,
    r = Return K_list /\ length K_list = count
    /\ Forall (square_matrix n) K_list.

(** The Pauli matrix X, which exchanges the two levels of the qubit. *)
Definition pauli_X : ndarray := np.array2 [[C0; C1]; [C1; C0]].

(** * Properties *)

(** ** Complex numbers and comparisons *)

Lemma C_eq (a b : C) : Re a = Re b -> Im a = Im b -> a = b.
Proof. destruct a, b; simpl; intros -> ->; reflexivity. Qed.

Lemma Cconj_C0 : Cconj C0 = C0.
Proof. apply C_eq; simpl; lra. Qed.

Lemma Cmod_nonneg (a : C) : 0 <= Cmod a.
Proof. apply sqrt_pos. Qed.

Lemma Cmod_real (a : C) : Im a = 0 -> Cmod a = Rabs (Re a).
Proof.
  intros H. unfold Cmod. rewrite H.
  replace (Re a * Re a + 0 * 0) with (Rsqr (Re a)) by (unfold Rsqr; ring).
  apply sqrt_Rsqr_abs.
Qed.

Lemma Cmod_C0 : Cmod C0 = 0.
Proof. rewrite Cmod_real by reflexivity. apply Rabs_R0. Qed.

Lemma Cmod_C1 : Cmod C1 = 1.
Proof. rewrite Cmod_real by reflexivity. apply Rabs_R1. Qed.

Lemma Cmod_real_le (a : C) (t : R) :
  Im a = 0 -> - t <= Re a <= t -> Cmod a <= t.
Proof. intros H Ht. rewrite (Cmod_real a H). apply Rabs_le. exact Ht. Qed.

Lemma Cmod_real_gt (a : C) (t : R) :
  Im a = 0 -> t < Re a -> t < Cmod a.
Proof.
  intros H Ht. rewrite (Cmod_real a H).
  apply Rlt_le_trans with (Re a); [exact Ht | apply Rle_abs].
Qed.

(** A bound on the distance of two complex numbers with no imaginary
    part, by linear arithmetic on their real parts. *)
Ltac close_real :=
  rewrite ?Cmod_C1, ?Cmod_C0;
  apply Cmod_real_le; [simpl; lra | unfold np.atol, np.rtol; simpl; lra].

Lemma Rleb_true (x y : R) : Rleb x y = true <-> x <= y.
Proof. unfold Rleb. destruct (Rle_dec x y); split; intros; easy. Qed.

(** ** Results *)

Lemma bind_Return {A B : Type} (a : A) (k : A -> result B) :
  bind (Return a) k = k a.
Proof. reflexivity. Qed.

(** ** Row-major tables *)

Lemma nth_tabulate_from (c : nat) (f : nat -> nat -> C) (d : C) (j : nat) :
  (j < c)%nat ->
  forall r s i : nat, (i < r)%nat ->
    nth (i * c + j) (flat_map (fun i' => map (f i') (seq 0 c)) (seq s r)) d
    = f (s + i)%nat j.
Proof.
  intros Hj. induction r as [|r IH]; intros s i Hi; [lia|].
  simpl seq. simpl flat_map.
  destruct i as [|i].
  - simpl. rewrite app_nth1 by (rewrite length_map, length_seq; exact Hj).
    rewrite (nth_indep _ d (f s 0%nat))
      by (rewrite length_map, length_seq; exact Hj).
    rewrite map_nth, seq_nth by exact Hj. rewrite Nat.add_0_r. reflexivity.
  - rewrite app_nth2 by (rewrite length_map, length_seq; simpl; lia).
    rewrite length_map, length_seq.
    replace (S i * c + j - c)%nat with (i * c + j)%nat by (simpl; lia).
    rewrite IH by lia. f_equal. lia.
Qed.

Lemma get2_tabulate2 (r c : nat) (f : nat -> nat -> C) (i j : nat) :
  (i < r)%nat -> (j < c)%nat -> get2 c (tabulate2 r c f) i j = f i j.
Proof.
  intros Hi Hj. unfold get2, tabulate2.
  rewrite (nth_tabulate_from c f C0 j Hj r 0 i Hi). reflexivity.
Qed.

Lemma combine_map_app {A B D : Type} (f : A -> B) (g : A -> D) (l : list A)
  (xs : list B) (ys : list D) :
  combine (map f l ++ xs) (map g l ++ ys)
  = map (fun x => (f x, g x)) l ++ combine xs ys.
Proof. induction l as [|x l IH]; simpl; congruence. Qed.

Lemma combine_tabulate2 (r c : nat) (f g : nat -> nat -> C) :
  combine (tabulate2 r c f) (tabulate2 r c g)
  = flat_map (fun i => map (fun j => (f i j, g i j)) (seq 0 c)) (seq 0 r).
Proof.
  unfold tabulate2. generalize 0%nat at 2 4 6.
  induction r as [|r IH]; intros s; simpl; [reflexivity|].
  rewrite combine_map_app, IH. reflexivity.
Qed.

Lemma forallb_tabulate2 (P : C * C -> bool) (r c : nat) (f g : nat -> nat -> C) :
  forallb P (combine (tabulate2 r c f) (tabulate2 r c g)) = true
  <-> (forall i j : nat, (i < r)%nat -> (j < c)%nat -> P (f i j, g i j) = true).
Proof.
  rewrite combine_tabulate2, forallb_forall. split.
  - intros H i j Hi Hj. apply H. apply in_flat_map. exists i. split.
    + apply in_seq. lia.
    + apply in_map_iff. exists j. split; [reflexivity|]. apply in_seq. lia.
  - intros H x Hx. apply in_flat_map in Hx. destruct Hx as [i [Hi Hx]].
    apply in_map_iff in Hx. destruct Hx as [j [<- Hj]].
    apply in_seq in Hi. apply in_seq in Hj. apply H; lia.
Qed.

Lemma nth_concat_uniform (N : nat) (d : C) (ls : list (list C)) :
  Forall (fun l => length l = N) ls ->
  forall a i : nat, (a < length ls)%nat -> (i < N)%nat ->
    nth (a * N + i) (concat ls) d = nth i (nth a ls []) d.
Proof.
  intros Hall. induction Hall as [|l ls Hl Hls IH]; intros a i Ha Hi.
  - simpl in Ha. lia.
  - simpl concat. destruct a as [|a].
    + simpl. apply app_nth1. lia.
    + rewrite app_nth2 by (simpl; lia).
      replace (S a * N + i - length l)%nat with (a * N + i)%nat by (simpl; lia).
      simpl in Ha. simpl nth. apply IH; lia.
Qed.

Lemma map_nth_seq {A B : Type} (F : A -> B) (d : A) (l : list A) :
  map (fun a => F (nth a l d)) (seq 0 (length l)) = map F l.
Proof.
  induction l as [|x l IH]; simpl; [reflexivity|].
  f_equal. rewrite <- seq_shift, map_map. exact IH.
Qed.

Lemma flat_map_ext_in {A B : Type} (f g : A -> list B) (l : list A) :
  (forall x : A, In x l -> f x = g x) -> flat_map f l = flat_map g l.
Proof.
  induction l as [|x l IH]; intros H; simpl; [reflexivity|].
  rewrite (H x) by (left; reflexivity).
  rewrite IH by (intros y Hy; apply H; right; exact Hy). reflexivity.
Qed.

Lemma tabulate2_ext (r c : nat) (f g : nat -> nat -> C) :
  (forall i j : nat, (i < r)%nat -> (j < c)%nat -> f i j = g i j) ->
  tabulate2 r c f = tabulate2 r c g.
Proof.
  intros H. unfold tabulate2. apply flat_map_ext_in. intros i Hi.
  apply map_ext_in. intros j Hj.
  apply in_seq in Hi. apply in_seq in Hj. apply H; lia.
Qed.

(** ** The matrix operations, element by element *)

Lemma entry_tabulate2 (r c : nat) (f : nat -> nat -> C) (i j : nat) :
  (i < r)%nat -> (j < c)%nat ->
  entry (mk_ndarray [r; c] (tabulate2 r c f)) i j = f i j.
Proof. intros Hi Hj. unfold entry, cols. simpl. apply get2_tabulate2; assumption. Qed.

Lemma entry_gram (n : nat) (K : ndarray) (k l : nat) :
  shape K = [n; n] -> (k < n)%nat -> (l < n)%nat ->
  entry (matmul (conjugate_transpose K) K) k l = gram_entry n K k l.
Proof.
  intros HK Hk Hl. unfold matmul, conjugate_transpose, rows, cols.
  simpl. rewrite HK. simpl.
  rewrite entry_tabulate2 by assumption.
  unfold gram_entry. f_equal. apply map_ext_in. intros j Hj.
  apply in_seq in Hj. f_equal.
  rewrite entry_tabulate2 by lia. reflexivity.
Qed.

Lemma completeness_sum_table (n : nat) (K_list : list ndarray) :
  Forall (fun K => shape K = [n; n]) K_list ->
  completeness_sum n K_list
  = mk_ndarray [n; n]
      (tabulate2 n n (fun k l => Csum (map (fun K => gram_entry n K k l) K_list))).
Proof.
  intros H. induction H as [|K Ks HK HKs IH]; [reflexivity|].
  simpl completeness_sum. rewrite IH. unfold matadd.
  assert (Hs : shape (matmul (conjugate_transpose K) K) = [n; n]).
  { unfold matmul, conjugate_transpose, rows, cols. simpl. rewrite HK. reflexivity. }
  unfold rows, cols. rewrite Hs. simpl nth.
  f_equal. apply tabulate2_ext. intros i j Hi Hj. simpl map. simpl Csum.
  rewrite (entry_gram n), entry_tabulate2 by assumption. reflexivity.
Qed.

(** ** The [einsum] of the stacked matrices *)

Lemma get3_conj (m n : nat) (K : ndarray) (a j k : nat) :
  get3 m n (data (np.conj K)) a j k = Cconj (get3 m n (data K) a j k).
Proof.
  unfold get3, np.conj. simpl data.
  rewrite <- Cconj_C0 at 1. apply map_nth.
Qed.

Section SquareMatrices.

(** A non-empty list [K0 :: Ks] of [n] x [n] matrices. *)
Variable n : nat.
Variable K0 : ndarray.
Variable Ks : list ndarray.
Hypothesis all_square : Forall (square_matrix n) (K0 :: Ks).

Lemma shapes_square : Forall (fun K => shape K = [n; n]) (K0 :: Ks).
Proof. revert all_square. apply Forall_impl. intros K [H _]. exact H. Qed.

Lemma shape_first : shape K0 = [n; n].
Proof. pose proof shapes_square as H. inversion H. assumption. Qed.

Lemma shape_stack :
  shape (np.array (K0 :: Ks)) = [length (K0 :: Ks); n; n].
Proof. unfold np.array. simpl shape. rewrite shape_first. reflexivity. Qed.

(** The element [(a, j, k)] of the stack is the element [(j, k)] of the
    matrix of index [a]. *)
Lemma get3_stack (a j k : nat) :
  (a < length (K0 :: Ks))%nat -> (j < n)%nat -> (k < n)%nat ->
  get3 n n (data (np.array (K0 :: Ks))) a j k
  = entry (nth a (K0 :: Ks) (mk_ndarray [] [])) j k.
Proof.
  intros Ha Hj Hk. set (K_list := K0 :: Ks) in *.
  set (none := mk_ndarray [] []). unfold get3, np.array, data at 1.
  replace ((a * n + j) * n + k)%nat with (a * (n * n) + (j * n + k))%nat by lia.
  rewrite nth_concat_uniform with (N := (n * n)%nat).
  - change (@nil C) with (data none). rewrite map_nth.
    unfold entry, get2, cols.
    assert (Hs : shape (nth a K_list none) = [n; n]).
    { apply (Forall_nth (square_matrix n) K_list); assumption. }
    rewrite Hs. reflexivity.
  - apply Forall_map. generalize all_square. apply Forall_impl.
    intros K [Hs Hwf]. unfold well_formed in Hwf. rewrite Hwf, Hs. simpl. lia.
  - rewrite length_map. exact Ha.
  - nia.
Qed.

(** The [einsum] of the source is the sum of the [K^dagger K]. *)
Lemma einsum_completeness_sum :
  np.einsum_ajk_ajl_kl (np.conj (np.array (K0 :: Ks))) (np.array (K0 :: Ks))
  = Return (completeness_sum n (K0 :: Ks)).
Proof.
  rewrite (completeness_sum_table n _ shapes_square).
  assert (Hc : shape (np.conj (np.array (K0 :: Ks)))
               = [length (K0 :: Ks); n; n]) by exact shape_stack.
  unfold np.einsum_ajk_ajl_kl, np.einsum_axes.
  rewrite Hc, shape_stack, !bind_Return, !Nat.eqb_refl. cbv [andb].
  f_equal. f_equal. apply tabulate2_ext. intros k l Hk Hl.
  rewrite <- (map_nth_seq (fun K => gram_entry n K k l) (mk_ndarray [] [])).
  f_equal. apply map_ext_in. intros a Ha. apply in_seq in Ha.
  unfold gram_entry. f_equal. apply map_ext_in. intros j Hj. apply in_seq in Hj.
  rewrite get3_conj, !get3_stack by (assumption || lia). reflexivity.
Qed.

End SquareMatrices.

(** ** [np.allclose] against the identity *)

Lemma allclose_within_tolerance (n : nat) (K_list : list ndarray) :
  Forall (fun K => shape K = [n; n]) K_list ->
  np.allclose (completeness_sum n K_list) (np.eye n) = true
  <-> within_tolerance n (completeness_sum n K_list) (np.eye n).
Proof.
  intros H. rewrite (completeness_sum_table n K_list H).
  unfold np.allclose, np.eye, within_tolerance. simpl data.
  rewrite forallb_tabulate2. unfold np.isclose. simpl fst. simpl snd.
  split; intros Hc k l Hk Hl.
  - rewrite !entry_tabulate2 by assumption. apply Rleb_true. apply Hc; assumption.
  - apply Rleb_true. specialize (Hc k l Hk Hl).
    rewrite !entry_tabulate2 in Hc by assumption. exact Hc.
Qed.

(** ** The checks of [QubitChannel._kraus_matrices] *)

Lemma all_pure {A : Type} (f : A -> result bool) (p : A -> bool) (l : list A) :
  (forall x : A, In x l -> f x = Return (p x)) ->
  all f l = Return (forallb p l).
Proof.
  induction l as [|x l IH]; intros H; simpl; [reflexivity|].
  rewrite (H x) by (left; reflexivity). simpl.
  destruct (p x); [|reflexivity].
  apply IH. intros y Hy. apply H. right. exact Hy.
Qed.

Lemma forallb_false_Exists {A : Type} (p : A -> bool) (l : list A) :
  Exists (fun x => p x = false) l -> forallb p l = false.
Proof.
  intros H. induction H as [x l Hx | x l _ IH]; simpl.
  - rewrite Hx. reflexivity.
  - rewrite IH. apply andb_false_r.
Qed.

Lemma forallb_true_Forall {A : Type} (p : A -> bool) (l : list A) :
  Forall (fun x => p x = true) l -> forallb p l = true.
Proof. intros H. apply forallb_forall. apply Forall_forall. exact H. Qed.

(** An array with at least two axes is square when its first two axes
    agree; the test raises nothing on it. *)
Lemma is_square_two_axes (K : ndarray) (r c : nat) (rest : list nat) :
  shape K = r :: c :: rest -> QubitChannel.is_square K = Return (Nat.eqb r c).
Proof. intros H. unfold QubitChannel.is_square. rewrite H. reflexivity. Qed.

Lemma shape_eqb_true (s t : list nat) : shape_eqb s t = true <-> s = t.
Proof. unfold shape_eqb. destruct (list_eq_dec Nat.eq_dec s t); split; easy. Qed.

Lemma shape_eqb_false (s t : list nat) : shape_eqb s t = false <-> s <> t.
Proof. unfold shape_eqb. destruct (list_eq_dec Nat.eq_dec s t); split; easy. Qed.

Lemma has_shape_of_first_cons (K0 : ndarray) (Ks : list ndarray) (K : ndarray) :
  QubitChannel.has_shape_of_first (K0 :: Ks) K
  = Return (shape_eqb (shape K) (shape K0)).
Proof. reflexivity. Qed.

(** On a non-empty list of [n] x [n] matrices the three shape checks
    pass, and the method returns the list or raises the error of the
    fourth check as [np.allclose] says of the sum of the [K^dagger K]. *)
Lemma kraus_matrices_square (n : nat) (K0 : ndarray) (Ks : list ndarray) :
  Forall (square_matrix n) (K0 :: Ks) ->
  QubitChannel._kraus_matrices [K0 :: Ks]
  = if np.allclose (completeness_sum n (K0 :: Ks)) (np.eye n)
    then Return (K0 :: Ks)
    else Raise (ValueError QubitChannel.not_trace_preserving).
Proof.
  intros Hall.
  pose proof (shapes_square n K0 Ks Hall) as Hshape.
  pose proof (shape_first n K0 Ks Hall) as H0.
  unfold QubitChannel._kraus_matrices.
  change (tuple_getitem [K0 :: Ks] 0) with (Return (K0 :: Ks)).
  rewrite bind_Return.
  rewrite (all_pure QubitChannel.is_square (fun _ => true)).
  2:{ intros K HK. rewrite Forall_forall in Hshape.
      rewrite (is_square_two_axes K n n []) by (apply Hshape; exact HK).
      rewrite Nat.eqb_refl. reflexivity. }
  rewrite forallb_true_Forall by (apply Forall_forall; reflexivity).
  rewrite bind_Return. cbv [negb].
  rewrite (all_pure _ (fun K => shape_eqb (shape K) (shape K0)))
    by (intros; apply has_shape_of_first_cons).
  rewrite forallb_true_Forall.
  2:{ revert Hshape. apply Forall_impl. intros K HK.
      apply shape_eqb_true. congruence. }
  rewrite bind_Return. cbv [negb].
  rewrite (all_pure QubitChannel.is_2d (fun K => Nat.eqb (ndim K) 2))
    by reflexivity.
  rewrite forallb_true_Forall.
  2:{ revert Hshape. apply Forall_impl. intros K HK.
      unfold ndim. rewrite HK. reflexivity. }
  rewrite bind_Return. cbv [negb].
  rewrite (einsum_completeness_sum n K0 Ks Hall), bind_Return.
  change (list_getitem (K0 :: Ks) 0) with (Return K0). rewrite bind_Return.
  rewrite H0. change (tuple_getitem [n; n] 0) with (Return n).
  rewrite bind_Return.
  destruct (np.allclose (completeness_sum n (K0 :: Ks)) (np.eye n)); reflexivity.
Qed.

(** The outcome of the method once the outcome of its first check is
    known. *)
Lemma kraus_matrices_not_square (K_list : list ndarray) :
  all QubitChannel.is_square K_list = Return false ->
  QubitChannel._kraus_matrices [K_list]
  = Raise (ValueError QubitChannel.not_square).
Proof.
  intros H. unfold QubitChannel._kraus_matrices.
  change (tuple_getitem [K_list] 0) with (Return K_list).
  rewrite bind_Return, H. reflexivity.
Qed.

Lemma kraus_matrices_not_same_shape (K_list : list ndarray) :
  all QubitChannel.is_square K_list = Return true ->
  all (QubitChannel.has_shape_of_first K_list) K_list = Return false ->
  QubitChannel._kraus_matrices [K_list]
  = Raise (ValueError QubitChannel.not_same_shape).
Proof.
  intros H1 H2. unfold QubitChannel._kraus_matrices.
  change (tuple_getitem [K_list] 0) with (Return K_list).
  rewrite bind_Return, H1, bind_Return. cbv [negb]. rewrite H2. reflexivity.
Qed.

Lemma kraus_matrices_not_2d (K_list : list ndarray) :
  all QubitChannel.is_square K_list = Return true ->
  all (QubitChannel.has_shape_of_first K_list) K_list = Return true ->
  all QubitChannel.is_2d K_list = Return false ->
  QubitChannel._kraus_matrices [K_list]
  = Raise (ValueError QubitChannel.not_2d).
Proof.
  intros H1 H2 H3. unfold QubitChannel._kraus_matrices.
  change (tuple_getitem [K_list] 0) with (Return K_list).
  rewrite bind_Return, H1, bind_Return. cbv [negb].
  rewrite H2, bind_Return. cbv [negb]. rewrite H3. reflexivity.
Qed.

(** A 2-D array has a shape [(rows, cols)]. *)
Lemma shape_2d (K : ndarray) : ndim K = 2%nat -> shape K = [rows K; cols K].
Proof.
  unfold ndim, rows, cols. destruct (shape K) as [|r [|c [|x s]]];
    simpl; intros H; try discriminate H. reflexivity.
Qed.

Lemma all_is_square_2d (K_list : list ndarray) :
  Forall (fun K => ndim K = 2%nat) K_list ->
  all QubitChannel.is_square K_list
  = Return (forallb (fun K => Nat.eqb (rows K) (cols K)) K_list).
Proof.
  intros H. apply all_pure. intros K HK. rewrite Forall_forall in H.
  apply is_square_two_axes with (rest := []). apply shape_2d. apply H. exact HK.
Qed.

Lemma all_has_shape_of_first (K0 : ndarray) (Ks : list ndarray) :
  all (QubitChannel.has_shape_of_first (K0 :: Ks)) (K0 :: Ks)
  = Return (forallb (fun K => shape_eqb (shape K) (shape K0)) (K0 :: Ks)).
Proof. apply all_pure. intros. apply has_shape_of_first_cons. Qed.

Lemma all_is_2d (K_list : list ndarray) :
  all QubitChannel.is_2d K_list
  = Return (forallb (fun K => Nat.eqb (ndim K) 2) K_list).
Proof. apply all_pure. reflexivity. Qed.

(** The matrices that pass the three shape checks are [n] x [n], for
    [n] the first axis of the first. *)
Lemma square_matrix_of_checks (K0 K : ndarray) :
  ndim K = 2%nat -> rows K = cols K -> shape K = shape K0 -> well_formed K ->
  square_matrix (rows K0) K.
Proof.
  intros Hd Hsq Hs Hwf. split; [|exact Hwf].
  unfold rows at 1 2. rewrite <- Hs. fold (rows K).
  rewrite (shape_2d K Hd) at 1. rewrite <- Hsq. reflexivity.
Qed.

Lemma Forall_square_matrix (K0 : ndarray) (K_list : list ndarray) :
  Forall (fun K => ndim K = 2%nat) K_list ->
  Forall (fun K => rows K = cols K) K_list ->
  Forall (fun K => shape K = shape K0) K_list ->
  Forall well_formed K_list ->
  Forall (square_matrix (rows K0)) K_list.
Proof.
  rewrite !Forall_forall. intros H1 H2 H3 H4 K HK.
  apply square_matrix_of_checks; auto.
Qed.

(** * The generic channel *)

(** C4.  A list of matrices that passes the four validation checks (every
    matrix is 2-D, every matrix is square, every matrix has the shape of
    the first, and the sum of the [K^dagger K] is the identity within the
    tolerance) is returned as it was given. *)
Theorem QubitChannel_returns_valid_list (K0 : ndarray) (Ks : list ndarray) :
  Forall (fun K => ndim K = 2%nat) (K0 :: Ks) ->
  Forall (fun K => rows K = cols K) (K0 :: Ks) ->
  Forall (fun K => shape K = shape K0) (K0 :: Ks) ->
  Forall well_formed (K0 :: Ks) ->
  within_tolerance (rows K0)
    (completeness_sum (rows K0) (K0 :: Ks)) (np.eye (rows K0)) ->
  QubitChannel._kraus_matrices [K0 :: Ks] = Return (K0 :: Ks).
Proof.
  intros H2d Hsq Hsame Hwf Htol.
  pose proof (Forall_square_matrix K0 _ H2d Hsq Hsame Hwf) as Hall.
  rewrite (kraus_matrices_square (rows K0) K0 Ks Hall).
  assert (Hshape : Forall (fun K => shape K = [rows K0; rows K0]) (K0 :: Ks)).
  { revert Hall. apply Forall_impl. intros K [H _]. exact H. }
  apply (allclose_within_tolerance _ _ Hshape) in Htol.
  rewrite Htol. reflexivity.
Qed.

(** C3.  A list of square 2-D matrices of one shape whose sum of the
    [K^dagger K] is not the identity within the tolerance makes the
    method raise the trace-preservation error. *)
Theorem QubitChannel_rejects_not_trace_preserving
  (K0 : ndarray) (Ks : list ndarray) :
  Forall (fun K => ndim K = 2%nat) (K0 :: Ks) ->
  Forall (fun K => rows K = cols K) (K0 :: Ks) ->
  Forall (fun K => shape K = shape K0) (K0 :: Ks) ->
  Forall well_formed (K0 :: Ks) ->
  ~ within_tolerance (rows K0)
      (completeness_sum (rows K0) (K0 :: Ks)) (np.eye (rows K0)) ->
  QubitChannel._kraus_matrices [K0 :: Ks]
  = Raise (ValueError QubitChannel.not_trace_preserving).
Proof.
  intros H2d Hsq Hsame Hwf Htol.
  pose proof (Forall_square_matrix K0 _ H2d Hsq Hsame Hwf) as Hall.
  rewrite (kraus_matrices_square (rows K0) K0 Ks Hall).
  assert (Hshape : Forall (fun K => shape K = [rows K0; rows K0]) (K0 :: Ks)).
  { revert Hall. apply Forall_impl. intros K [H _]. exact H. }
  destruct (np.allclose (completeness_sum (rows K0) (K0 :: Ks))
              (np.eye (rows K0))) eqn:E; [|reflexivity].
  exfalso. apply Htol. apply (allclose_within_tolerance _ _ Hshape). exact E.
Qed.

(** The list holding the 2 x 2 identity alone is returned. *)
Lemma QubitChannel_identity :
  QubitChannel._kraus_matrices [[np.eye 2]] = Return [np.eye 2].
Proof.
  apply QubitChannel_returns_valid_list.
  - repeat constructor.
  - repeat constructor.
  - repeat constructor.
  - repeat constructor.
  - intros k l Hk Hl. cbn in Hk, Hl.
    destruct k as [|[|k]]; [| |lia]; (destruct l as [|[|l]]; [| |lia]).
    all: cbn; close_real.
Defined.

(** The list [[0.9 * I2, 0.9 * I2]], whose sum is [1.62 * I2], is
    refused. *)
Lemma QubitChannel_scaled_identities :
  let K := np.multiply (9 / 10) (np.eye 2) in
  QubitChannel._kraus_matrices [[K; K]]
  = Raise (ValueError QubitChannel.not_trace_preserving).
Proof.
  intros K. apply QubitChannel_rejects_not_trace_preserving.
  - repeat constructor.
  - repeat constructor.
  - repeat constructor.
  - repeat constructor.
  - intros H.
    specialize (H 0%nat 0%nat (Nat.lt_0_succ 1) (Nat.lt_0_succ 1)).
    cbn in H. rewrite Cmod_C1 in H. revert H. apply Rlt_not_le.
    apply Cmod_real_gt; [simpl; lra | unfold np.atol, np.rtol; simpl; lra].
Defined.

(** C5.  A list of 2-D matrices one of which is not square makes the
    method raise the error of its first check, whatever the other checks
    would have found. *)
Theorem QubitChannel_rejects_non_square (K_list : list ndarray) :
  Forall (fun K => ndim K = 2%nat) K_list ->
  Exists (fun K => rows K <> cols K) K_list ->
  QubitChannel._kraus_matrices [K_list]
  = Raise (ValueError QubitChannel.not_square).
Proof.
  intros H2d Hex. apply kraus_matrices_not_square.
  rewrite (all_is_square_2d K_list H2d). f_equal.
  apply forallb_false_Exists. revert Hex. apply Exists_impl.
  intros K HK. apply Nat.eqb_neq. exact HK.
Qed.

(** A single 2 x 3 matrix is refused as not square. *)
Lemma QubitChannel_two_by_three :
  let K := np.array2 [[C1; C0; C0]; [C0; C1; C0]] in
  QubitChannel._kraus_matrices [[K]]
  = Raise (ValueError QubitChannel.not_square).
Proof.
  intros K. apply QubitChannel_rejects_non_square.
  - repeat constructor.
  - apply Exists_cons_hd. cbn. discriminate.
Defined.

(** C6.  A list of square 2-D matrices one of which has not the shape of
    the first makes the method raise the error of its second check. *)
Theorem QubitChannel_rejects_inconsistent_shapes
  (K0 : ndarray) (Ks : list ndarray) :
  Forall (fun K => ndim K = 2%nat) (K0 :: Ks) ->
  Forall (fun K => rows K = cols K) (K0 :: Ks) ->
  Exists (fun K => shape K <> shape K0) (K0 :: Ks) ->
  QubitChannel._kraus_matrices [K0 :: Ks]
  = Raise (ValueError QubitChannel.not_same_shape).
Proof.
  intros H2d Hsq Hex. apply kraus_matrices_not_same_shape.
  - rewrite (all_is_square_2d _ H2d). f_equal.
    apply forallb_true_Forall. revert Hsq. apply Forall_impl.
    intros K HK. apply Nat.eqb_eq. exact HK.
  - rewrite all_has_shape_of_first. f_equal.
    apply forallb_false_Exists. revert Hex. apply Exists_impl.
    intros K HK. apply shape_eqb_false. exact HK.
Qed.

(** A 2 x 2 matrix followed by a 3 x 3 matrix is refused for its
    shapes. *)
Lemma QubitChannel_two_and_three :
  QubitChannel._kraus_matrices [[np.eye 2; np.eye 3]]
  = Raise (ValueError QubitChannel.not_same_shape).
Proof.
  apply QubitChannel_rejects_inconsistent_shapes.
  - repeat constructor.
  - repeat constructor.
  - apply Exists_cons_tl. apply Exists_cons_hd. cbn. discriminate.
Defined.

(** The third check is reached only by the lists that pass the first
    two.  A 2 x 2 matrix followed by a 3-D array of shape [(2, 2, 2)]
    holds an array that has not two dimensions, and is refused by the
    second check, for its shapes. *)
Lemma QubitChannel_matrix_and_batch :
  let K_list := [np.eye 2; mk_ndarray [2; 2; 2]%nat (repeat C0 8)] in
  Exists (fun K => ndim K <> 2%nat) K_list
  /\ QubitChannel._kraus_matrices [K_list]
     = Raise (ValueError QubitChannel.not_same_shape)
  /\ QubitChannel._kraus_matrices [K_list]
     <> Raise (ValueError QubitChannel.not_2d).
Proof.
  intros K_list. split; [|split].
  - apply Exists_cons_tl. apply Exists_cons_hd. cbn. discriminate.
  - reflexivity.
  - cbn. discriminate.
Qed.

(** A batch of two 3 x 3 matrices given as one 3-D array of shape
    [(2, 3, 3)] is refused by the first check as not square, its first
    two axes being 2 and 3. *)
Example QubitChannel_batch_is_not_square :
  QubitChannel._kraus_matrices [[mk_ndarray [2; 3; 3]%nat (repeat C0 18)]]
  = Raise (ValueError QubitChannel.not_square).
Proof. reflexivity. Qed.

(** A 1-D array has no second axis: [K.shape[1]] in the first check
    raises [IndexError], which no branch of the method handles. *)
Example QubitChannel_vector :
  QubitChannel._kraus_matrices [[mk_ndarray [2]%nat [C1; C0]]]
  = Raise (IndexError "tuple index out of range").
Proof. reflexivity. Qed.

(** C7, as the method has it.  When every array of the list has at least
    two axes of which the first two agree, and every array has the shape
    of the first, an array whose number of dimensions is not 2 makes the
    method raise the error of its third check. *)
Theorem QubitChannel_rejects_wrong_rank (K0 : ndarray) (Ks : list ndarray) :
  Forall (fun K => exists r rest, shape K = r :: r :: rest) (K0 :: Ks) ->
  Forall (fun K => shape K = shape K0) (K0 :: Ks) ->
  Exists (fun K => ndim K <> 2%nat) (K0 :: Ks) ->
  QubitChannel._kraus_matrices [K0 :: Ks]
  = Raise (ValueError QubitChannel.not_2d).
Proof.
  intros Hsq Hsame Hex. apply kraus_matrices_not_2d.
  - rewrite (all_pure QubitChannel.is_square (fun _ => true)).
    + f_equal. apply forallb_true_Forall. apply Forall_forall. reflexivity.
    + intros K HK. rewrite Forall_forall in Hsq.
      destruct (Hsq K HK) as [r [rest Hs]].
      rewrite (is_square_two_axes K r r rest Hs), Nat.eqb_refl. reflexivity.
  - rewrite all_has_shape_of_first. f_equal.
    apply forallb_true_Forall. revert Hsame. apply Forall_impl.
    intros K HK. apply shape_eqb_true. exact HK.
  - rewrite all_is_2d. f_equal.
    apply forallb_false_Exists. revert Hex. apply Exists_impl.
    intros K HK. apply Nat.eqb_neq. exact HK.
Qed.

(** A batch of two 2 x 2 matrices given as one array of shape
    [(2, 2, 2)] is refused by the third check. *)
Lemma QubitChannel_batch_of_squares :
  QubitChannel._kraus_matrices [[mk_ndarray [2; 2; 2]%nat (repeat C0 8)]]
  = Raise (ValueError QubitChannel.not_2d).
Proof.
  apply QubitChannel_rejects_wrong_rank.
  - repeat constructor. exists 2%nat, [2%nat]. reflexivity.
  - repeat constructor.
  - apply Exists_cons_hd. cbn. discriminate.
Defined.

(** C10.  On the empty list the three shape checks pass, each over no
    matrix at all; [np.einsum] then refuses the stacked array, which has
    one axis where the subscripts name three.  The method raises that
    error, which is none of the four it raises itself. *)
Theorem QubitChannel_empty_list :
  all QubitChannel.is_square [] = Return true
  /\ all (QubitChannel.has_shape_of_first []) [] = Return true
  /\ all QubitChannel.is_2d [] = Return true
  /\ np.einsum_ajk_ajl_kl (np.conj (np.array [])) (np.array [])
     = Raise (ValueError (np.einsum_too_many_subscripts "0"))
  /\ QubitChannel._kraus_matrices [[]]
     = Raise (ValueError (np.einsum_too_many_subscripts "0"))
  /\ ~ In (ValueError (np.einsum_too_many_subscripts "0"))
          QubitChannel.validation_errors.
Proof.
  repeat split; try reflexivity.
  cbn. intros [H | [H | [H | [H | []]]]]; discriminate H.
Qed.

(** The generic channel counts one parameter, not none. *)
Lemma QubitChannel_num_params_not_zero : QubitChannel.num_params <> 0%nat.
Proof. discriminate. Qed.

(** C8, as the class has it.  The generic channel counts one parameter,
    the list of matrices: the method reads it as [params[0]], and fails
    when called with no parameter. *)
Theorem QubitChannel_num_params :
  QubitChannel.num_params = 1%nat
  /\ QubitChannel.par_domain = "L"%string
  /\ QubitChannel._kraus_matrices []
     = Raise (IndexError "tuple index out of range").
Proof. repeat split. Qed.

(** * The canonical channels *)

Lemma np_sqrt_sqr (x : R) : 0 <= x -> np.sqrt x * np.sqrt x = x.
Proof. intros H. unfold np.sqrt. apply sqrt_sqrt. exact H. Qed.

Ltac eval_matrices :=
  cbv [completeness_sum matadd matmul conjugate_transpose zeros
       np.eye np.diag np.multiply np.array2 entry rows cols get2 tabulate2
       flat_map map seq nth app length hd concat Nat.eqb Nat.add Nat.mul
       Csum fold_right shape data].

(** The squares of the square roots of a goal, as hypotheses. *)
Ltac square_roots :=
  repeat match goal with
  | |- context [np.sqrt ?x] =>
      let s := fresh "s" in
      let Hs := fresh "Hs" in
      assert (Hs : np.sqrt x * np.sqrt x = x) by (apply np_sqrt_sqr; lra);
      set (s := np.sqrt x) in *; clearbody s
  end.

(** C1.  For every parameter value of the documented domain, the
    matrices of each canonical channel satisfy the completeness relation:
    the sum of their [K^dagger K] is the 2 x 2 identity. *)
Theorem canonical_channels_complete (gamma p : R) :
  0 <= gamma <= 1 -> 0 <= p <= 1 ->
  complete 2 (AmplitudeDamping._kraus_matrices [gamma])
  /\ complete 2 (GeneralizedAmplitudeDamping._kraus_matrices [gamma; p])
  /\ complete 2 (PhaseDamping._kraus_matrices [gamma])
  /\ complete 2 (DepolarizingChannel._kraus_matrices [p]).
Proof.
  intros Hg Hp. repeat split.
  all: eexists; (split; [reflexivity|]); eval_matrices; repeat f_equal.
  all: apply C_eq; simpl; square_roots; nra.
Qed.

(** The channels at [gamma = 1/4] and [p = 1/2]. *)
Lemma canonical_channels_complete_at_quarter_half :
  complete 2 (AmplitudeDamping._kraus_matrices [1 / 4])
  /\ complete 2 (GeneralizedAmplitudeDamping._kraus_matrices [1 / 4; 1 / 2])
  /\ complete 2 (PhaseDamping._kraus_matrices [1 / 4])
  /\ complete 2 (DepolarizingChannel._kraus_matrices [1 / 2]).
Proof. apply canonical_channels_complete; lra. Defined.

(** Matrices that satisfy the completeness relation exactly satisfy it
    within the tolerance of the generic channel. *)
Lemma complete_within_tolerance (n : nat) (K_list : list ndarray) :
  completeness_sum n K_list = np.eye n ->
  within_tolerance n (completeness_sum n K_list) (np.eye n).
Proof.
  intros H k l _ _. rewrite H.
  replace (Cmod (Cminus (entry (np.eye n) k l) (entry (np.eye n) k l))) with 0.
  - pose proof (Cmod_nonneg (entry (np.eye n) k l)).
    unfold np.atol, np.rtol. nra.
  - unfold Cmod, Cminus, Cplus, Copp. simpl.
    replace (_ + _) with 0 by ring. symmetry. apply sqrt_0.
Qed.

(** At [p = 1] the generalized channel returns four matrices where the
    amplitude damping channel returns two: the two lists are not equal. *)
Lemma GeneralizedAmplitudeDamping_not_AmplitudeDamping :
  0 <= 1 / 2 <= 1
  /\ GeneralizedAmplitudeDamping._kraus_matrices [1 / 2; 1]
     <> AmplitudeDamping._kraus_matrices [1 / 2].
Proof.
  split; [lra|]. intros H.
  apply (f_equal (fun r => match r with
                           | Return K_list => length K_list
                           | Raise _ => 0%nat
                           end)) in H.
  discriminate H.
Qed.

(** C2, as the methods have it.  At [p = 1] the generalized channel
    returns the two matrices of the amplitude damping channel for the
    same [gamma], in their order, followed by two zero matrices. *)
Theorem GeneralizedAmplitudeDamping_at_p_1 (gamma : R) :
  0 <= gamma <= 1 ->
  GeneralizedAmplitudeDamping._kraus_matrices [gamma; 1]
  = (K_list <- AmplitudeDamping._kraus_matrices [gamma] ;;
     Return (K_list ++ [zeros 2; zeros 2])).
Proof.
  intros _.
  assert (H1 : np.sqrt 1 = 1) by apply sqrt_1.
  assert (H0 : np.sqrt (1 - 1) = 0).
  { replace (1 - 1) with 0 by ring. apply sqrt_0. }
  unfold GeneralizedAmplitudeDamping._kraus_matrices,
    AmplitudeDamping._kraus_matrices.
  simpl bind. cbv zeta. simpl fst. simpl snd. simpl app.
  rewrite H1, H0. eval_matrices.
  repeat f_equal.
  all: first [ring | apply C_eq; simpl; ring].
Qed.

(** The two channels at [gamma = 1/2]. *)
Lemma GeneralizedAmplitudeDamping_at_p_1_half :
  GeneralizedAmplitudeDamping._kraus_matrices [1 / 2; 1]
  = (K_list <- AmplitudeDamping._kraus_matrices [1 / 2] ;;
     Return (K_list ++ [zeros 2; zeros 2])).
Proof. apply GeneralizedAmplitudeDamping_at_p_1. lra. Defined.

(** * Further properties of the generic channel *)

(** ** What the outcome of [all] says of the elements *)

Lemma all_true_Forall {A : Type} (f : A -> result bool) (l : list A) :
  all f l = Return true -> Forall (fun x => f x = Return true) l.
Proof.
  induction l as [|x l IH]; simpl; intros H; [constructor|].
  destruct (f x) as [[|]|e] eqn:E; simpl in H; try discriminate H.
  constructor; [exact E | apply IH; exact H].
Qed.

Lemma all_false_Exists {A : Type} (f : A -> result bool) (l : list A) :
  all f l = Return false -> Exists (fun x => f x = Return false) l.
Proof.
  induction l as [|x l IH]; simpl; intros H; [discriminate H|].
  destruct (f x) as [[|]|e] eqn:E; simpl in H; try discriminate H.
  - apply Exists_cons_tl. apply IH. exact H.
  - apply Exists_cons_hd. exact E.
Qed.

Lemma all_Raise_Exists {A : Type} (f : A -> result bool) (l : list A)
  (e : exception) :
  all f l = Raise e -> Exists (fun x => f x = Raise e) l.
Proof.
  induction l as [|x l IH]; simpl; intros H; [discriminate H|].
  destruct (f x) as [[|]|e'] eqn:E; simpl in H; try discriminate H.
  - apply Exists_cons_tl. apply IH. exact H.
  - apply Exists_cons_hd. rewrite E. exact H.
Qed.

(** The square test returns on the arrays with two axes or more and
    raises [IndexError] on the others. *)
Lemma is_square_Return (K : ndarray) (b : bool) :
  QubitChannel.is_square K = Return b ->
  exists r c rest, shape K = r :: c :: rest /\ b = Nat.eqb r c.
Proof.
  unfold QubitChannel.is_square.
  destruct (shape K) as [|r [|c rest]]; simpl; intros H; try discriminate H.
  exists r, c, rest. split; [reflexivity|]. congruence.
Qed.

Lemma is_square_Raise (K : ndarray) (e : exception) :
  QubitChannel.is_square K = Raise e ->
  (ndim K < 2)%nat /\ e = IndexError "tuple index out of range".
Proof.
  unfold QubitChannel.is_square, ndim.
  destruct (shape K) as [|r [|c rest]]; simpl; intros H; try discriminate H.
  - split; [lia | congruence].
  - split; [lia | congruence].
Qed.

(** An array with fewer than two axes makes the square test raise. *)
Lemma is_square_few_axes (K : ndarray) :
  (ndim K < 2)%nat ->
  QubitChannel.is_square K = Raise (IndexError "tuple index out of range").
Proof.
  unfold QubitChannel.is_square, ndim.
  destruct (shape K) as [|r [|c rest]]; simpl; intros H; try reflexivity. lia.
Qed.

(** The lists that pass the three shape checks hold [n] x [n] arrays. *)
Lemma checks_give_square (K0 : ndarray) (Ks : list ndarray) :
  all QubitChannel.is_square (K0 :: Ks) = Return true ->
  forallb (fun K => shape_eqb (shape K) (shape K0)) (K0 :: Ks) = true ->
  forallb (fun K => Nat.eqb (ndim K) 2) (K0 :: Ks) = true ->
  Forall (fun K => shape K = [rows K0; rows K0]) (K0 :: Ks).
Proof.
  intros Hsq Hsame H2d.
  apply all_true_Forall in Hsq. rewrite forallb_forall in Hsame, H2d.
  rewrite Forall_forall in Hsq. apply Forall_forall. intros K HK.
  assert (H0 : shape K0 = [rows K0; rows K0]).
  { destruct (is_square_Return K0 true (Hsq K0 (or_introl eq_refl)))
      as [r [c [rest [Hs Hb]]]].
    symmetry in Hb. apply Nat.eqb_eq in Hb. subst c.
    pose proof (H2d K0 (or_introl eq_refl)) as Hd. apply Nat.eqb_eq in Hd.
    unfold ndim in Hd. rewrite Hs in Hd. destruct rest; [|discriminate Hd].
    unfold rows. rewrite Hs. reflexivity. }
  pose proof (Hsame K HK) as Hs. apply shape_eqb_true in Hs. congruence.
Qed.

Lemma forallb_false_inv {A : Type} (p : A -> bool) (l : list A) :
  forallb p l = false -> Exists (fun x => p x = false) l.
Proof.
  induction l as [|x l IH]; simpl; intros H; [discriminate H|].
  destruct (p x) eqn:E.
  - apply Exists_cons_tl. apply IH. exact H.
  - apply Exists_cons_hd. exact E.
Qed.

(** Once the first array is [n] x [n], the stack has three axes and
    [np.einsum] returns. *)
Lemma einsum_stack_returns (n : nat) (K0 : ndarray) (Ks : list ndarray) :
  shape K0 = [n; n] ->
  exists S : ndarray,
    np.einsum_ajk_ajl_kl (np.conj (np.array (K0 :: Ks))) (np.array (K0 :: Ks))
    = Return S.
Proof.
  intros H0. unfold np.einsum_ajk_ajl_kl, np.einsum_axes, np.conj, np.array.
  simpl shape. rewrite H0. rewrite !bind_Return, !Nat.eqb_refl. cbv [andb].
  eexists. reflexivity.
Qed.

(** The six ways a call on one list of arrays can end, each with what it
    says of the list. *)
Lemma kraus_matrices_outcome (K_list : list ndarray) :
  (Exists (fun K => (ndim K < 2)%nat) K_list
   /\ QubitChannel._kraus_matrices [K_list]
      = Raise (IndexError "tuple index out of range"))
  \/ (Exists (fun K => exists r c rest, shape K = r :: c :: rest /\ r <> c) K_list
      /\ QubitChannel._kraus_matrices [K_list]
         = Raise (ValueError QubitChannel.not_square))
  \/ (exists K0 Ks, K_list = K0 :: Ks
      /\ Exists (fun K => shape K <> shape K0) K_list
      /\ QubitChannel._kraus_matrices [K_list]
         = Raise (ValueError QubitChannel.not_same_shape))
  \/ (Exists (fun K => ndim K <> 2%nat) K_list
      /\ QubitChannel._kraus_matrices [K_list]
         = Raise (ValueError QubitChannel.not_2d))
  \/ (K_list = []
      /\ QubitChannel._kraus_matrices [K_list]
         = Raise (ValueError (np.einsum_too_many_subscripts "0")))
  \/ (exists K0 Ks, K_list = K0 :: Ks
      /\ Forall (fun K => shape K = [rows K0; rows K0]) K_list
      /\ (QubitChannel._kraus_matrices [K_list] = Return K_list
          \/ QubitChannel._kraus_matrices [K_list]
             = Raise (ValueError QubitChannel.not_trace_preserving))).
Proof.
  destruct (all QubitChannel.is_square K_list) as [[|]|e] eqn:Hsq.
  - destruct K_list as [|K0 Ks].
    { do 4 right. left. split; reflexivity. }
    destruct (forallb (fun K => shape_eqb (shape K) (shape K0)) (K0 :: Ks))
      eqn:Hsame.
    + destruct (forallb (fun K => Nat.eqb (ndim K) 2) (K0 :: Ks)) eqn:H2d.
      * do 5 right. exists K0, Ks. split; [reflexivity|].
        pose proof (checks_give_square K0 Ks Hsq Hsame H2d) as Hshape.
        split; [exact Hshape|].
        assert (H0 : shape K0 = [rows K0; rows K0])
          by (inversion Hshape; assumption).
        destruct (einsum_stack_returns (rows K0) K0 Ks H0) as [S HS].
        unfold QubitChannel._kraus_matrices.
        change (tuple_getitem [K0 :: Ks] 0) with (Return (K0 :: Ks)).
        rewrite bind_Return, Hsq, bind_Return. cbv [negb].
        rewrite all_has_shape_of_first, Hsame, bind_Return. cbv [negb].
        rewrite all_is_2d, H2d, bind_Return. cbv [negb].
        rewrite HS, bind_Return.
        change (list_getitem (K0 :: Ks) 0) with (Return K0).
        rewrite bind_Return, H0.
        change (tuple_getitem [rows K0; rows K0] 0) with (Return (rows K0)).
        rewrite bind_Return.
        destruct (np.allclose S (np.eye (rows K0))); [left | right]; reflexivity.
      * do 3 right. left. split.
        -- apply forallb_false_inv in H2d. revert H2d. apply Exists_impl.
           intros K HK. apply Nat.eqb_neq. exact HK.
        -- apply kraus_matrices_not_2d; [exact Hsq | |].
           ++ rewrite all_has_shape_of_first, Hsame. reflexivity.
           ++ rewrite all_is_2d, H2d. reflexivity.
    + do 2 right. left. exists K0, Ks. split; [reflexivity|]. split.
      * apply forallb_false_inv in Hsame. revert Hsame. apply Exists_impl.
        intros K HK. apply shape_eqb_false. exact HK.
      * apply kraus_matrices_not_same_shape; [exact Hsq|].
        rewrite all_has_shape_of_first, Hsame. reflexivity.
  - right. left. split.
    + pose proof (all_false_Exists _ _ Hsq) as Hex. revert Hex.
      apply Exists_impl. intros K HK.
      destruct (is_square_Return K false HK) as [r [c [rest [Hs Hb]]]].
      exists r, c, rest. split; [exact Hs|].
      apply Nat.eqb_neq. symmetry. exact Hb.
    + apply kraus_matrices_not_square. exact Hsq.
  - left.
    pose proof (all_Raise_Exists _ _ _ Hsq) as Hex.
    assert (He : e = IndexError "tuple index out of range").
    { apply Exists_exists in Hex. destruct Hex as [K [_ HK]].
      apply (is_square_Raise K e HK). }
    split.
    + revert Hex. apply Exists_impl. intros K HK.
      apply (is_square_Raise K e HK).
    + unfold QubitChannel._kraus_matrices.
      change (tuple_getitem [K_list] 0) with (Return K_list).
      rewrite bind_Return, Hsq, He. reflexivity.
Qed.

(** ** Sums of complex numbers *)

Lemma Cplus_C0_l (a : C) : Cplus C0 a = a.
Proof. apply C_eq; simpl; lra. Qed.

Lemma Cplus_C0_r (a : C) : Cplus a C0 = a.
Proof. apply C_eq; simpl; lra. Qed.

Lemma Cplus_assoc (a b c : C) : Cplus a (Cplus b c) = Cplus (Cplus a b) c.
Proof. apply C_eq; simpl; lra. Qed.

Lemma Csum_app (l1 l2 : list C) :
  Csum (l1 ++ l2) = Cplus (Csum l1) (Csum l2).
Proof.
  induction l1 as [|a l1 IH]; simpl.
  - symmetry. apply Cplus_C0_l.
  - rewrite IH. apply Cplus_assoc.
Qed.

Lemma Csum_zero {A : Type} (g : A -> C) (l : list A) :
  (forall x : A, In x l -> g x = C0) -> Csum (map g l) = C0.
Proof.
  induction l as [|x l IH]; intros H; simpl; [reflexivity|].
  rewrite (H x) by (left; reflexivity).
  rewrite IH by (intros y Hy; apply H; right; exact Hy).
  apply Cplus_C0_l.
Qed.

(** A sum over [0 .. n-1] whose terms vanish but at [k] is its term at
    [k]. *)
Lemma Csum_single (g : nat -> C) (n k : nat) :
  (k < n)%nat ->
  (forall j : nat, (j < n)%nat -> j <> k -> g j = C0) ->
  Csum (map g (seq 0 n)) = g k.
Proof.
  induction n as [|n IH]; intros Hk Hz; [lia|].
  rewrite seq_S, map_app, Csum_app. simpl map. simpl Csum.
  rewrite Cplus_C0_r. destruct (Nat.eq_dec k n) as [->|Hne].
  - rewrite Csum_zero; [apply Cplus_C0_l|].
    intros j Hj. apply in_seq in Hj. apply Hz; lia.
  - rewrite IH by (try lia; intros j Hj Hjk; apply Hz; lia).
    rewrite (Hz n) by lia. apply Cplus_C0_r.
Qed.

Lemma length_tabulate2 (r c : nat) (f : nat -> nat -> C) :
  length (tabulate2 r c f) = (r * c)%nat.
Proof.
  unfold tabulate2. generalize 0%nat at 2.
  induction r as [|r IH]; intros s; simpl; [reflexivity|].
  rewrite length_app, length_map, length_seq, IH. reflexivity.
Qed.

(** ** The identity of any dimension *)

Lemma square_matrix_eye (n : nat) : square_matrix n (np.eye n).
Proof.
  split; [reflexivity|]. unfold well_formed, np.eye. simpl.
  rewrite length_tabulate2. lia.
Qed.

Lemma entry_eye (n i j : nat) :
  (i < n)%nat -> (j < n)%nat ->
  entry (np.eye n) i j = if Nat.eqb i j then C1 else C0.
Proof. intros Hi Hj. unfold np.eye. apply entry_tabulate2; assumption. Qed.

Lemma completeness_sum_eye (n : nat) :
  completeness_sum n [np.eye n] = np.eye n.
Proof.
  rewrite completeness_sum_table by (repeat constructor).
  unfold np.eye at 2. f_equal. apply tabulate2_ext. intros k l Hk Hl.
  simpl map. simpl Csum. rewrite Cplus_C0_r. unfold gram_entry.
  rewrite (Csum_single _ n k Hk).
  - rewrite !entry_eye by assumption. rewrite Nat.eqb_refl.
    destruct (Nat.eqb k l); apply C_eq; simpl; ring.
  - intros j Hj Hjk. rewrite (entry_eye n j k) by assumption.
    apply Nat.eqb_neq in Hjk. rewrite Hjk. apply C_eq; simpl; ring.
Qed.

(** A non-empty list of [n] x [n] matrices whose sum of the
    [K^dagger K] is the identity is returned. *)
Lemma kraus_matrices_complete (n : nat) (K0 : ndarray) (Ks : list ndarray) :
  Forall (square_matrix n) (K0 :: Ks) ->
  completeness_sum n (K0 :: Ks) = np.eye n ->
  QubitChannel._kraus_matrices [K0 :: Ks] = Return (K0 :: Ks).
Proof.
  intros Hall Hsum. rewrite (kraus_matrices_square n K0 Ks Hall).
  pose proof (shapes_square n K0 Ks Hall) as Hshape.
  pose proof (complete_within_tolerance n _ Hsum) as Htol.
  apply (allclose_within_tolerance n _ Hshape) in Htol.
  rewrite Htol. reflexivity.
Qed.

(** The call on the identity alone returns. *)
Ltac accept_eye :=
  eapply kraus_matrices_complete;
  [ constructor; [apply square_matrix_eye | constructor]
  | apply completeness_sum_eye ].

(** X1.  The identity matrix of every dimension [n], alone in the list,
    is returned: the method compares with [np.eye] of the first axis and
    tests no power of two. *)
Theorem QubitChannel_accepts_eye (n : nat) :
  QubitChannel._kraus_matrices [[np.eye n]] = Return [np.eye n].
Proof. accept_eye. Qed.

(** ** What an outcome says of the list *)

(** X2.  A list of well-formed arrays that the method returns is the
    list it was given; it is not empty, its arrays are [n] x [n]
    matrices for [n] the first axis of the first, and the sum of their
    [K^dagger K] is the identity within the tolerance. *)
Theorem QubitChannel_returned_list_is_valid (K_list Ks : list ndarray) :
  Forall well_formed K_list ->
  QubitChannel._kraus_matrices [K_list] = Return Ks ->
  Ks = K_list
  /\ exists K0 Ks', K_list = K0 :: Ks'
      /\ Forall (square_matrix (rows K0)) K_list
      /\ within_tolerance (rows K0)
           (completeness_sum (rows K0) K_list) (np.eye (rows K0)).
Proof.
  intros Hwf Hrun.
  destruct (kraus_matrices_outcome K_list)
    as [[_ H] | [[_ H] | [[K0 [Ks' [_ [_ H]]]] | [[_ H] | [[_ H] | H]]]]];
    try (rewrite H in Hrun; discriminate Hrun).
  destruct H as [K0 [Ks' [-> [Hshape _]]]].
  assert (Hall : Forall (square_matrix (rows K0)) (K0 :: Ks')).
  { rewrite Forall_forall in Hshape, Hwf. apply Forall_forall.
    intros K HK. split; [apply Hshape | apply Hwf]; exact HK. }
  rewrite (kraus_matrices_square (rows K0) K0 Ks' Hall) in Hrun.
  destruct (np.allclose (completeness_sum (rows K0) (K0 :: Ks'))
              (np.eye (rows K0))) eqn:E; [|discriminate Hrun].
  split; [congruence|]. exists K0, Ks'. split; [reflexivity|].
  split; [exact Hall|].
  apply (allclose_within_tolerance _ _ Hshape). exact E.
Qed.

(** The identity of dimension 3, which is returned. *)
Lemma QubitChannel_returned_eye_3_is_valid :
  [np.eye 3] = [np.eye 3]
  /\ exists K0 Ks', [np.eye 3] = K0 :: Ks'
      /\ Forall (square_matrix (rows K0)) [np.eye 3]
      /\ within_tolerance (rows K0)
           (completeness_sum (rows K0) [np.eye 3]) (np.eye (rows K0)).
Proof.
  apply QubitChannel_returned_list_is_valid.
  - constructor; [apply (square_matrix_eye 3) | constructor].
  - accept_eye.
Defined.

(** Two exceptions of different messages are different. *)
Ltac other_message H :=
  exfalso; cbv in H; discriminate H.

(** X3.  Each exception of the method says the truth of the list: the
    non-square error means an array whose first two axes differ, the
    shape error an array that has not the shape of the first, the rank
    error an array that has not two dimensions, and the
    trace-preservation error a non-empty list of [n] x [n] matrices whose
    sum of the [K^dagger K] (the arrays being well-formed) is not the
    identity within the tolerance; [IndexError] means an array with fewer
    than two axes, and the error of [np.einsum] the empty list. *)
Theorem QubitChannel_errors_are_truthful (K_list : list ndarray) :
  (QubitChannel._kraus_matrices [K_list]
     = Raise (ValueError QubitChannel.not_square) ->
   Exists (fun K => exists r c rest, shape K = r :: c :: rest /\ r <> c) K_list)
  /\ (QubitChannel._kraus_matrices [K_list]
        = Raise (ValueError QubitChannel.not_same_shape) ->
      exists K0 Ks, K_list = K0 :: Ks
        /\ Exists (fun K => shape K <> shape K0) K_list)
  /\ (QubitChannel._kraus_matrices [K_list]
        = Raise (ValueError QubitChannel.not_2d) ->
      Exists (fun K => ndim K <> 2%nat) K_list)
  /\ (QubitChannel._kraus_matrices [K_list]
        = Raise (ValueError QubitChannel.not_trace_preserving) ->
      exists K0 Ks, K_list = K0 :: Ks
        /\ Forall (fun K => shape K = [rows K0; rows K0]) K_list
        /\ (Forall well_formed K_list ->
            ~ within_tolerance (rows K0)
                (completeness_sum (rows K0) K_list) (np.eye (rows K0))))
  /\ (QubitChannel._kraus_matrices [K_list]
        = Raise (IndexError "tuple index out of range") ->
      Exists (fun K => (ndim K < 2)%nat) K_list)
  /\ (QubitChannel._kraus_matrices [K_list]
        = Raise (ValueError (np.einsum_too_many_subscripts "0")) ->
      K_list = []).
Proof.
  repeat split; intros Hrun.
  all: destruct (kraus_matrices_outcome K_list)
    as [[Hex H] | [[Hex H] | [[K0 [Ks [HK [Hex H]]]] | [[Hex H] | [[Hex H]
       | [K0 [Ks [HK [Hshape [H | H]]]]]]]]]];
    rewrite H in Hrun; try (other_message Hrun); try assumption.
  - exists K0, Ks. split; assumption.
  - exists K0, Ks. split; [exact HK|]. split; [exact Hshape|].
    intros Hwf Htol. subst K_list.
    assert (Hall : Forall (square_matrix (rows K0)) (K0 :: Ks)).
    { rewrite Forall_forall in Hshape, Hwf. apply Forall_forall.
      intros K HK. split; [apply Hshape | apply Hwf]; exact HK. }
    rewrite (kraus_matrices_square (rows K0) K0 Ks Hall) in H.
    apply (allclose_within_tolerance _ _ Hshape) in Htol.
    rewrite Htol in H. discriminate H.
Qed.

(** The 2 x 3 matrix, whose two axes differ. *)
Lemma QubitChannel_two_by_three_is_not_square :
  Exists (fun K => exists r c rest, shape K = r :: c :: rest /\ r <> c)
    [np.array2 [[C1; C0; C0]; [C0; C1; C0]]].
Proof.
  apply (proj1 (QubitChannel_errors_are_truthful
                  [np.array2 [[C1; C0; C0]; [C0; C1; C0]]])).
  reflexivity.
Defined.

(** X4.  On a non-empty list of arrays that have two axes or more each,
    the method returns the list or raises one of its own four errors, and
    nothing else. *)
Theorem QubitChannel_returns_or_refuses (K_list : list ndarray) :
  K_list <> [] ->
  Forall (fun K => (2 <= ndim K)%nat) K_list ->
  QubitChannel._kraus_matrices [K_list] = Return K_list
  \/ exists e : exception,
       In e QubitChannel.validation_errors
       /\ QubitChannel._kraus_matrices [K_list] = Raise e.
Proof.
  intros Hne Haxes.
  destruct (kraus_matrices_outcome K_list)
    as [[Hex H] | [[Hex H] | [[K0 [Ks [HK [Hex H]]]] | [[Hex H] | [[Hex H]
       | [K0 [Ks [HK [Hshape [H | H]]]]]]]]]].
  - exfalso. apply Exists_exists in Hex. destruct Hex as [K [HK Hlt]].
    rewrite Forall_forall in Haxes. specialize (Haxes K HK). lia.
  - right. eexists. split; [|exact H]. simpl. auto.
  - right. eexists. split; [|exact H]. simpl. auto.
  - right. eexists. split; [|exact H]. simpl. auto.
  - contradiction.
  - left. exact H.
  - right. eexists. split; [|exact H]. simpl. auto.
Qed.

(** A 2 x 2 matrix and a 3-D array. *)
Lemma QubitChannel_returns_or_refuses_matrix_and_batch :
  let K_list := [np.eye 2; mk_ndarray [2; 2; 2]%nat (repeat C0 8)] in
  QubitChannel._kraus_matrices [K_list] = Return K_list
  \/ exists e : exception,
       In e QubitChannel.validation_errors
       /\ QubitChannel._kraus_matrices [K_list] = Raise e.
Proof.
  intros K_list. apply QubitChannel_returns_or_refuses.
  - discriminate.
  - repeat constructor.
Defined.

(** X5.  When the first array with fewer than two axes comes after
    arrays whose first two axes agree, [K.shape[1]] (or [K.shape[0]])
    raises [IndexError] in the first check, and the method raises it:
    none of its own errors is reached. *)
Theorem QubitChannel_too_few_axes (before after : list ndarray) (K : ndarray) :
  Forall (fun K' => exists r rest, shape K' = r :: r :: rest) before ->
  (ndim K < 2)%nat ->
  QubitChannel._kraus_matrices [before ++ K :: after]
  = Raise (IndexError "tuple index out of range").
Proof.
  intros Hbefore HK.
  assert (Hsq : all QubitChannel.is_square (before ++ K :: after)
                = Raise (IndexError "tuple index out of range")).
  { induction Hbefore as [|K' before [r [rest Hs]] _ IH]; simpl.
    - rewrite (is_square_few_axes K HK). reflexivity.
    - rewrite (is_square_two_axes K' r r rest Hs), Nat.eqb_refl. simpl.
      exact IH. }
  unfold QubitChannel._kraus_matrices.
  change (tuple_getitem [before ++ K :: after] 0)
    with (Return (before ++ K :: after)).
  rewrite bind_Return, Hsq. reflexivity.
Qed.

(** The identity followed by a 1-D array and a 2 x 3 matrix. *)
Lemma QubitChannel_too_few_axes_after_eye :
  QubitChannel._kraus_matrices
    [[np.eye 2] ++ mk_ndarray [2]%nat [C1; C0]
       :: [np.array2 [[C1; C0; C0]; [C0; C1; C0]]]]
  = Raise (IndexError "tuple index out of range").
Proof.
  apply QubitChannel_too_few_axes.
  - repeat constructor. exists 2%nat, []. reflexivity.
  - cbn. lia.
Defined.



(** * Further properties of the canonical channels *)

(** Equality of two lists of arrays, element by element. *)
Ltac equal_matrices :=
  repeat match goal with
  | |- Return _ = Return _ => apply f_equal
  | |- _ :: _ = _ :: _ => apply f_equal2
  | |- mk_ndarray _ _ = mk_ndarray _ _ => apply f_equal2
  end;
  try reflexivity.

Ltac arity :=
  unfold AmplitudeDamping.num_params, GeneralizedAmplitudeDamping.num_params,
    PhaseDamping.num_params, DepolarizingChannel.num_params in *;
  simpl in *; lia.

(** X7.  Each canonical method returns when it is given the parameters
    it reads, whatever their values, and what it returns is a list of
    2 or 4 well-formed 2 x 2 matrices; otherwise it raises.  The methods
    of one parameter read [params[0]]: they accept more parameters than
    [num_params], and raise [IndexError] on the empty tuple.  The
    generalized amplitude damping unpacks [params]: it accepts exactly
    [num_params] parameters, and raises the [ValueError] of the unpacking
    on fewer and on more. *)
Theorem canonical_channels_arity (params : list R) :
  ((returns_matrices 2 2 (AmplitudeDamping._kraus_matrices params)
    <-> (AmplitudeDamping.num_params <= length params)%nat)
   /\ ((length params < AmplitudeDamping.num_params)%nat ->
       AmplitudeDamping._kraus_matrices params
       = Raise (IndexError "tuple index out of range")))
  /\ ((returns_matrices 4 2 (GeneralizedAmplitudeDamping._kraus_matrices params)
       <-> length params = GeneralizedAmplitudeDamping.num_params)
      /\ (length params = 0%nat ->
          GeneralizedAmplitudeDamping._kraus_matrices params
          = Raise (ValueError "not enough values to unpack (expected 2, got 0)"))
      /\ (length params = 1%nat ->
          GeneralizedAmplitudeDamping._kraus_matrices params
          = Raise (ValueError "not enough values to unpack (expected 2, got 1)"))
      /\ ((GeneralizedAmplitudeDamping.num_params < length params)%nat ->
          GeneralizedAmplitudeDamping._kraus_matrices params
          = Raise (ValueError "too many values to unpack (expected 2)")))
  /\ ((returns_matrices 2 2 (PhaseDamping._kraus_matrices params)
       <-> (PhaseDamping.num_params <= length params)%nat)
      /\ ((length params < PhaseDamping.num_params)%nat ->
          PhaseDamping._kraus_matrices params
          = Raise (IndexError "tuple index out of range")))
  /\ ((returns_matrices 4 2 (DepolarizingChannel._kraus_matrices params)
       <-> (DepolarizingChannel.num_params <= length params)%nat)
      /\ ((length params < DepolarizingChannel.num_params)%nat ->
          DepolarizingChannel._kraus_matrices params
          = Raise (IndexError "tuple index out of range"))).
Proof.
  assert (Hsquare : forall K, shape K = [2; 2]%nat -> length (data K) = 4%nat ->
                              square_matrix 2 K).
  { intros K Hs Hd. split; [exact Hs|]. unfold well_formed.
    rewrite Hs, Hd. reflexivity. }
  repeat split.
  - intros [Ks [H _]]. destruct params; [discriminate H | arity].
  - intros H. destruct params as [|gamma rest]; [arity|].
    eexists. split; [reflexivity|]. split; [reflexivity|].
    repeat constructor; apply Hsquare; reflexivity.
  - intros H. destruct params; [reflexivity | arity].
  - intros [Ks [H _]].
    destruct params as [|x [|y [|z rest]]]; try discriminate H. reflexivity.
  - intros H. destruct params as [|x [|y [|z rest]]]; try discriminate H.
    eexists. split; [reflexivity|]. split; [reflexivity|].
    repeat constructor; apply Hsquare; reflexivity.
  - intros H. destruct params; [reflexivity | discriminate H].
  - intros H. destruct params as [|x [|y rest]]; try discriminate H.
    reflexivity.
  - intros H. destruct params as [|x [|y [|z rest]]]; try arity. reflexivity.
  - intros [Ks [H _]]. destruct params; [discriminate H | arity].
  - intros H. destruct params as [|gamma rest]; [arity|].
    eexists. split; [reflexivity|]. split; [reflexivity|].
    repeat constructor; apply Hsquare; reflexivity.
  - intros H. destruct params; [reflexivity | arity].
  - intros [Ks [H _]]. destruct params; [discriminate H | arity].
  - intros H. destruct params as [|p rest]; [arity|].
    eexists. split; [reflexivity|]. split; [reflexivity|].
    repeat constructor; apply Hsquare; reflexivity.
  - intros H. destruct params; [reflexivity | arity].
Qed.

(** The phase damping channel called with no parameter. *)
Lemma PhaseDamping_without_parameter :
  PhaseDamping._kraus_matrices []
  = Raise (IndexError "tuple index out of range").
Proof.
  apply (proj2 (proj1 (proj2 (proj2 (canonical_channels_arity []))))).
  unfold PhaseDamping.num_params. simpl. lia.
Defined.

(** The matrices of a canonical channel, as a list the generic channel
    returns. *)
Ltac accept_canonical :=
  apply (kraus_matrices_complete 2);
  [ repeat constructor
  | eval_matrices; repeat f_equal; apply C_eq; simpl; square_roots; nra ].

(** X8.  For parameter values of the documented domain, the list a
    canonical method returns passes the validation of the generic
    channel, which returns it. *)
Theorem canonical_channels_pass_validation (gamma p : R) :
  0 <= gamma <= 1 -> 0 <= p <= 1 ->
  (K_list <- AmplitudeDamping._kraus_matrices [gamma] ;;
   QubitChannel._kraus_matrices [K_list])
  = AmplitudeDamping._kraus_matrices [gamma]
  /\ (K_list <- GeneralizedAmplitudeDamping._kraus_matrices [gamma; p] ;;
      QubitChannel._kraus_matrices [K_list])
     = GeneralizedAmplitudeDamping._kraus_matrices [gamma; p]
  /\ (K_list <- PhaseDamping._kraus_matrices [gamma] ;;
      QubitChannel._kraus_matrices [K_list])
     = PhaseDamping._kraus_matrices [gamma]
  /\ (K_list <- DepolarizingChannel._kraus_matrices [p] ;;
      QubitChannel._kraus_matrices [K_list])
     = DepolarizingChannel._kraus_matrices [p].
Proof.
  intros Hg Hp. repeat split.
  - unfold AmplitudeDamping._kraus_matrices.
    change (tuple_getitem [gamma] 0) with (Return gamma).
    repeat (rewrite bind_Return; cbv beta). accept_canonical.
  - unfold GeneralizedAmplitudeDamping._kraus_matrices.
    change (unpack2 [gamma; p]) with (Return (gamma, p)).
    repeat (rewrite bind_Return; cbv beta). simpl fst. simpl snd.
    accept_canonical.
  - unfold PhaseDamping._kraus_matrices.
    change (tuple_getitem [gamma] 0) with (Return gamma).
    repeat (rewrite bind_Return; cbv beta). accept_canonical.
  - unfold DepolarizingChannel._kraus_matrices.
    change (tuple_getitem [p] 0) with (Return p).
    repeat (rewrite bind_Return; cbv beta). accept_canonical.
Qed.

(** The four channels at [gamma = 1/4] and [p = 1/2]. *)
Lemma canonical_channels_pass_validation_at_quarter_half :
  (K_list <- AmplitudeDamping._kraus_matrices [1 / 4] ;;
   QubitChannel._kraus_matrices [K_list])
  = AmplitudeDamping._kraus_matrices [1 / 4]
  /\ (K_list <- GeneralizedAmplitudeDamping._kraus_matrices [1 / 4; 1 / 2] ;;
      QubitChannel._kraus_matrices [K_list])
     = GeneralizedAmplitudeDamping._kraus_matrices [1 / 4; 1 / 2]
  /\ (K_list <- PhaseDamping._kraus_matrices [1 / 4] ;;
      QubitChannel._kraus_matrices [K_list])
     = PhaseDamping._kraus_matrices [1 / 4]
  /\ (K_list <- DepolarizingChannel._kraus_matrices [1 / 2] ;;
      QubitChannel._kraus_matrices [K_list])
     = DepolarizingChannel._kraus_matrices [1 / 2].
Proof. apply canonical_channels_pass_validation; lra. Defined.

(** X9.  For [gamma] and [p] in [[0, 1]], the four matrices of the
    generalized amplitude damping are the two matrices [K] of the
    amplitude damping at [gamma] multiplied by [sqrt(p)], followed by
    their conjugates [X K X] by the Pauli matrix X multiplied by
    [sqrt(1 - p)]. *)
Theorem GeneralizedAmplitudeDamping_mixes_AmplitudeDamping (gamma p : R) :
  0 <= gamma <= 1 -> 0 <= p <= 1 ->
  GeneralizedAmplitudeDamping._kraus_matrices [gamma; p]
  = (K_list <- AmplitudeDamping._kraus_matrices [gamma] ;;
     Return (map (np.multiply (np.sqrt p)) K_list
             ++ map (fun K => np.multiply (np.sqrt (1 - p))
                                (matmul pauli_X (matmul K pauli_X)))
                  K_list)).
Proof.
  intros _ _.
  unfold GeneralizedAmplitudeDamping._kraus_matrices,
    AmplitudeDamping._kraus_matrices.
  change (unpack2 [gamma; p]) with (Return (gamma, p)).
  change (tuple_getitem [gamma] 0) with (Return gamma).
  repeat (rewrite bind_Return; cbv beta).
  simpl fst. simpl snd. simpl map. simpl app.
  unfold pauli_X. eval_matrices. equal_matrices.
  all: apply C_eq; simpl; ring.
Qed.

(** The two channels at [gamma = 1/4] and [p = 1/2]. *)
Lemma GeneralizedAmplitudeDamping_mixes_at_quarter_half :
  GeneralizedAmplitudeDamping._kraus_matrices [1 / 4; 1 / 2]
  = (K_list <- AmplitudeDamping._kraus_matrices [1 / 4] ;;
     Return (map (np.multiply (np.sqrt (1 / 2))) K_list
             ++ map (fun K => np.multiply (np.sqrt (1 - 1 / 2))
                                (matmul pauli_X (matmul K pauli_X)))
                  K_list)).
Proof. apply GeneralizedAmplitudeDamping_mixes_AmplitudeDamping; lra. Defined.

(** * The sum the generic channel computes *)

(** X10.  On a non-empty list of well-formed [n] x [n] matrices,
    [np.einsum("ajk,ajl->kl", K_arr.conj(), K_arr)] over the stacked
    array returns the sum over the list of the products of the conjugate
    transpose of each matrix with the matrix. *)
Theorem Kraus_sum_is_completeness_sum
  (n : nat) (K0 : ndarray) (Ks : list ndarray) :
  Forall (square_matrix n) (K0 :: Ks) ->
  np.einsum_ajk_ajl_kl (np.conj (np.array (K0 :: Ks))) (np.array (K0 :: Ks))
  = Return (completeness_sum n (K0 :: Ks)).
Proof. exact (einsum_completeness_sum n K0 Ks). Qed.

(** The sum for the Pauli matrix X followed by the identity. *)
Lemma Kraus_sum_of_pauli_X_and_eye :
  np.einsum_ajk_ajl_kl (np.conj (np.array [pauli_X; np.eye 2]))
    (np.array [pauli_X; np.eye 2])
  = Return (completeness_sum 2 [pauli_X; np.eye 2]).
Proof.
  apply Kraus_sum_is_completeness_sum. repeat constructor.
Defined.

(** * Lists the generic channel returns, and lists made from them *)

Lemma Cmult_C0_r (a : C) : Cmult a C0 = C0.
Proof. apply C_eq; simpl; ring. Qed.

Lemma square_matrix_zeros (n : nat) : square_matrix n (zeros n).
Proof.
  split; [reflexivity|]. unfold well_formed, zeros. simpl.
  rewrite length_tabulate2. lia.
Qed.

Lemma gram_entry_zeros (n k l : nat) :
  (k < n)%nat -> (l < n)%nat -> gram_entry n (zeros n) k l = C0.
Proof.
  intros Hk Hl. unfold gram_entry. apply Csum_zero. intros j Hj.
  apply in_seq in Hj. unfold zeros at 2.
  rewrite (entry_tabulate2 n n) by lia. apply Cmult_C0_r.
Qed.

(** A zero matrix adds nothing to the sum of the [K^dagger K]. *)
Lemma completeness_sum_app_zeros (n : nat) (K_list : list ndarray) :
  Forall (fun K => shape K = [n; n]) K_list ->
  completeness_sum n (K_list ++ [zeros n]) = completeness_sum n K_list.
Proof.
  intros Hshape.
  rewrite !completeness_sum_table;
    [| exact Hshape
     | apply Forall_app; split; [exact Hshape | repeat constructor]].
  f_equal. apply tabulate2_ext. intros k l Hk Hl.
  rewrite map_app, Csum_app. simpl map. simpl Csum.
  rewrite gram_entry_zeros by assumption.
  rewrite Cplus_C0_r. apply Cplus_C0_r.
Qed.

(** What a returned list of well-formed arrays is. *)
Lemma kraus_matrices_Return_inv (K_list Ks : list ndarray) :
  Forall well_formed K_list ->
  QubitChannel._kraus_matrices [K_list] = Return Ks ->
  exists K0 Ks', K_list = K0 :: Ks'
    /\ Forall (square_matrix (rows K0)) K_list
    /\ np.allclose (completeness_sum (rows K0) K_list) (np.eye (rows K0))
       = true.
Proof.
  intros Hwf Hrun.
  destruct (kraus_matrices_outcome K_list)
    as [[_ H] | [[_ H] | [[K0 [Ks' [_ [_ H]]]] | [[_ H] | [[_ H] | H]]]]];
    try (rewrite H in Hrun; discriminate Hrun).
  destruct H as [K0 [Ks' [-> [Hshape _]]]].
  assert (Hall : Forall (square_matrix (rows K0)) (K0 :: Ks')).
  { rewrite Forall_forall in Hshape, Hwf. apply Forall_forall.
    intros K HK. split; [apply Hshape | apply Hwf]; exact HK. }
  exists K0, Ks'. split; [reflexivity|]. split; [exact Hall|].
  rewrite (kraus_matrices_square (rows K0) K0 Ks' Hall) in Hrun.
  destruct (np.allclose (completeness_sum (rows K0) (K0 :: Ks'))
              (np.eye (rows K0))); [reflexivity | discriminate Hrun].
Qed.

(** X11.  A list of well-formed arrays that the method returns is still
    returned with a zero matrix of its dimension appended: operators that
    contribute nothing to the sum are not refused. *)
Theorem QubitChannel_accepts_appended_zeros (K0 : ndarray) (Ks : list ndarray) :
  Forall well_formed (K0 :: Ks) ->
  QubitChannel._kraus_matrices [K0 :: Ks] = Return (K0 :: Ks) ->
  QubitChannel._kraus_matrices [(K0 :: Ks) ++ [zeros (rows K0)]]
  = Return ((K0 :: Ks) ++ [zeros (rows K0)]).
Proof.
  intros Hwf Hrun.
  destruct (kraus_matrices_Return_inv _ _ Hwf Hrun)
    as [K0' [Ks' [HK [Hall Hclose]]]].
  injection HK as <- <-.
  set (n := rows K0) in *.
  assert (Hall' : Forall (square_matrix n) (K0 :: Ks ++ [zeros n])).
  { change (K0 :: Ks ++ [zeros n]) with ((K0 :: Ks) ++ [zeros n]).
    apply Forall_app. split; [exact Hall|].
    constructor; [apply square_matrix_zeros | constructor]. }
  change ((K0 :: Ks) ++ [zeros n]) with (K0 :: Ks ++ [zeros n]).
  rewrite (kraus_matrices_square n K0 (Ks ++ [zeros n]) Hall').
  change (K0 :: Ks ++ [zeros n]) with ((K0 :: Ks) ++ [zeros n]).
  rewrite (completeness_sum_app_zeros n (K0 :: Ks)
             (shapes_square n K0 Ks Hall)).
  rewrite Hclose. reflexivity.
Qed.

(** The identity of dimension 2 followed by a zero matrix. *)
Lemma QubitChannel_accepts_eye_and_zeros :
  QubitChannel._kraus_matrices [[np.eye 2] ++ [zeros (rows (np.eye 2))]]
  = Return ([np.eye 2] ++ [zeros (rows (np.eye 2))]).
Proof.
  apply QubitChannel_accepts_appended_zeros.
  - constructor; [apply (square_matrix_eye 2) | constructor].
  - accept_eye.
Defined.

(** ** The tolerance, on the multiples of the identity *)

Lemma nth_map_fixed {A : Type} (f : A -> A) (d : A) (l : list A) (k : nat) :
  f d = d -> nth k (map f l) d = f (nth k l d).
Proof.
  intros Hf. transitivity (nth k (map f l) (f d)).
  - rewrite Hf. reflexivity.
  - apply map_nth.
Qed.

Lemma entry_multiply (s : R) (K : ndarray) (i j : nat) :
  entry (np.multiply s K) i j = Cmult (RtoC s) (entry K i j).
Proof.
  unfold entry, cols, get2, np.multiply. simpl shape. simpl data.
  apply nth_map_fixed. apply Cmult_C0_r.
Qed.

Lemma square_matrix_multiply (n : nat) (s : R) (K : ndarray) :
  square_matrix n K -> square_matrix n (np.multiply s K).
Proof.
  intros [Hs Hwf]. split; [exact Hs|].
  unfold well_formed, np.multiply in *. simpl. rewrite length_map. exact Hwf.
Qed.

(** The sum of the [K^dagger K] for [c * I] alone is [c^2 * I]. *)
Lemma entry_completeness_sum_scaled_eye (n : nat) (c : R) (k l : nat) :
  (k < n)%nat -> (l < n)%nat ->
  entry (completeness_sum n [np.multiply c (np.eye n)]) k l
  = if Nat.eqb k l then RtoC (c * c) else C0.
Proof.
  intros Hk Hl.
  rewrite completeness_sum_table by (repeat constructor).
  rewrite entry_tabulate2 by assumption.
  simpl map. simpl Csum. rewrite Cplus_C0_r. unfold gram_entry.
  rewrite (Csum_single _ n k Hk).
  - rewrite !entry_multiply, !entry_eye by assumption. rewrite Nat.eqb_refl.
    destruct (Nat.eqb k l); apply C_eq; simpl; ring.
  - intros j Hj Hjk. rewrite !entry_multiply, (entry_eye n j k) by assumption.
    apply Nat.eqb_neq in Hjk. rewrite Hjk. apply C_eq; simpl; ring.
Qed.

Lemma within_tolerance_scaled_eye (n : nat) (c : R) :
  (0 < n)%nat ->
  within_tolerance n (completeness_sum n [np.multiply c (np.eye n)]) (np.eye n)
  <-> Rabs (c * c - 1) <= np.atol + np.rtol.
Proof.
  intros Hn. split.
  - intros H. specialize (H 0%nat 0%nat Hn Hn).
    rewrite entry_completeness_sum_scaled_eye, entry_eye in H by assumption.
    simpl in H. rewrite Cmod_C1 in H.
    rewrite Cmod_real in H by (simpl; ring). simpl in H.
    replace (c * c - 1) with (c * c + - (1)) by ring. lra.
  - intros H k l Hk Hl.
    rewrite entry_completeness_sum_scaled_eye, entry_eye by assumption.
    destruct (Nat.eqb k l).
    + rewrite Cmod_C1. rewrite Cmod_real by (simpl; ring). simpl.
      replace (c * c + - (1)) with (c * c - 1) by ring. lra.
    + rewrite Cmod_C0. rewrite Cmod_real by (simpl; ring). simpl.
      replace (0 + - 0) with 0 by ring. rewrite Rabs_R0.
      unfold np.atol, np.rtol. lra.
Qed.

(** X12.  A multiple [c * I] of the identity of dimension [n >= 1],
    alone in the list, is returned when [|c^2 - 1| <= atol + rtol]
    (1e-8 + 1e-5) and refused with the trace-preservation error
    otherwise. *)
Theorem QubitChannel_scaled_identity (n : nat) (c : R) :
  (0 < n)%nat ->
  QubitChannel._kraus_matrices [[np.multiply c (np.eye n)]]
  = if Rleb (Rabs (c * c - 1)) (np.atol + np.rtol)
    then Return [np.multiply c (np.eye n)]
    else Raise (ValueError QubitChannel.not_trace_preserving).
Proof.
  intros Hn.
  assert (Hall : Forall (square_matrix n) [np.multiply c (np.eye n)]).
  { constructor; [|constructor].
    apply square_matrix_multiply. apply square_matrix_eye. }
  rewrite (kraus_matrices_square n _ [] Hall).
  pose proof (allclose_within_tolerance n _ (shapes_square n _ _ Hall)) as Ha.
  pose proof (within_tolerance_scaled_eye n c Hn) as Hw.
  pose proof (Rleb_true (Rabs (c * c - 1)) (np.atol + np.rtol)) as Hr.
  destruct (np.allclose _ _); destruct (Rleb _ _); try reflexivity; exfalso.
  - assert (Hf : false = true) by (apply Hr, Hw, Ha; reflexivity).
    discriminate Hf.
  - assert (Hf : false = true) by (apply Ha, Hw, Hr; reflexivity).
    discriminate Hf.
Qed.

(** The identity of dimension 2 multiplied by 0.9. *)
Lemma QubitChannel_scaled_identity_nine_tenths :
  QubitChannel._kraus_matrices [[np.multiply (9 / 10) (np.eye 2)]]
  = if Rleb (Rabs (9 / 10 * (9 / 10) - 1)) (np.atol + np.rtol)
    then Return [np.multiply (9 / 10) (np.eye 2)]
    else Raise (ValueError QubitChannel.not_trace_preserving).
Proof. apply QubitChannel_scaled_identity. lia. Defined.

(** * The weights of the depolarizing channel *)


